(** * DCTFilter: a shallow embedding of DCTFilter.cpp

    The plugin partitions every selected plane into [n]x[n] blocks, runs a
    forward DCT over each block, scales and quantises the coefficients and
    transforms back.  This file embeds the construction code
    ([dctfilterCreate]), the frame callback ([dctfilterGetFrame]) and the
    block engine ([process]) and proves the properties the specification
    states about them. *)

From Stdlib Require Import ZArith List Bool Lia String SpecFloat Reals Lra.
From stdpp Require Import base list gmap.

Local Open Scope Z_scope.

(** ** The arithmetic the code computes with

    [process<T>] and [dctfilterCreate] use [float] for the scratch block and
    both coefficient tables, [double] for the user's [factors] and [qps], and
    [int] for sizes and integer samples.  The operations the source applies
    to them are collected in one interface so that the engine is written once,
    as the template is. *)

Class Arith := {
  flt : Type;
  dbl : Type;
  f_zero : flt;                      (* 0.0f *)
  f_half : flt;                      (* 0.5f *)
  f_one : flt;                       (* 1.f  *)
  f_two : flt;                       (* 2.0f *)
  f_of_int : Z -> flt;               (* int (or uintN_t) to float *)
  f_to_int : flt -> Z;               (* static_cast<int>(float) *)
  f_add : flt -> flt -> flt;
  f_sub : flt -> flt -> flt;
  f_mul : flt -> flt -> flt;
  f_div : flt -> flt -> flt;
  f_fmod : flt -> flt -> flt;        (* fmodf *)
  f_sqrt : flt -> flt;               (* std::sqrt(float) *)
  f_lt : flt -> flt -> bool;         (* a < b *)
  d_zero : dbl;                      (* 0. *)
  d_one : dbl;                       (* 1. *)
  d_mul : dbl -> dbl -> dbl;
  d_lt : dbl -> dbl -> bool;
  d_to_f : dbl -> flt                (* static_cast<float>(double) *)
}.

(** ** IEEE 754 instance: binary32 and binary64 *)

Module IEEE.

Definition prec32 : Z := 24.
Definition emax32 : Z := 128.
Definition prec64 : Z := 53.
Definition emax64 : Z := 1024.

Definition INT_MIN : Z := - 2 ^ 31.
Definition INT_MAX : Z := 2 ^ 31 - 1.

Definition of_int (z : Z) : spec_float := binary_normalize prec32 emax32 z 0 false.

(** [static_cast<int>]: truncation toward zero.  For a NaN, an infinity or
    a value outside [int] the conversion is undefined in C++; the value taken
    here is the one the x86 conversion instruction delivers. *)
Definition to_int (x : spec_float) : Z :=
  match x with
  | S754_zero _ => 0
  | S754_finite s m e =>
      let a := match e with
               | Zneg p => Z.shiftr (Zpos m) (Zpos p)
               | _ => Z.shiftl (Zpos m) e
               end in
      let v := if s then - a else a in
      if (INT_MIN <=? v) && (v <=? INT_MAX) then v else INT_MIN
  | _ => INT_MIN
  end.

(** [fmodf x y]: the remainder of [x / y] with the quotient truncated toward
    zero; it has the sign of [x] and is computed without rounding. *)
Definition fmod (x y : spec_float) : spec_float :=
  match x, y with
  | S754_nan, _ | _, S754_nan => S754_nan
  | S754_infinity _, _ => S754_nan
  | _, S754_zero _ => S754_nan
  | _, S754_infinity _ => x
  | S754_zero _, S754_finite _ _ _ => x
  | S754_finite sx mx ex, S754_finite _ my ey =>
      let ez := Z.min ex ey in
      let ax := Z.shiftl (Zpos mx) (ex - ez) in
      let ay := Z.shiftl (Zpos my) (ey - ez) in
      binary_normalize prec32 emax32 (cond_Zopp sx (Z.rem ax ay)) ez sx
  end.

Definition of_double (x : spec_float) : spec_float :=
  match x with
  | S754_finite s m e => binary_round prec32 emax32 s m e
  | _ => x
  end.


#[export] Instance arith : Arith := {|
  flt := spec_float;
  dbl := spec_float;
  f_zero := S754_zero false;
  f_half := S754_finite false 8388608 (-24);
  f_one := S754_finite false 8388608 (-23);
  f_two := S754_finite false 8388608 (-22);
  f_of_int := of_int;
  f_to_int := to_int;
  f_add := SFadd prec32 emax32;
  f_sub := SFsub prec32 emax32;
  f_mul := SFmul prec32 emax32;
  f_div := SFdiv prec32 emax32;
  f_fmod := fmod;
  f_sqrt := SFsqrt prec32 emax32;
  f_lt := SFltb;
  d_zero := S754_zero false;
  d_one := S754_finite false 4503599627370496 (-52);
  d_mul := SFmul prec64 emax64;
  d_lt := SFltb;
  d_to_f := of_double
|}.

End IEEE.

#[global] Instance flt_inhabited {A : Arith} : Inhabited flt := populate f_zero.
#[global] Instance dbl_inhabited {A : Arith} : Inhabited dbl := populate d_zero.

(** ** Loops

    [for (int i = lo; i < hi; i++) body] over a state. *)
Definition for_range {S : Type} (lo hi : nat) (body : nat -> S -> S) (s : S) : S :=
  foldl (fun s i => body i s) s (seq lo (hi - lo)).

(** ** Results of the construction *)

Inductive thrown :=
  | BadN | BadFormat | PlaneRange | PlaneTwice
  | NumFactors | FactorRange | NumQps | MallocFailure.

(** The text of each [throw std::string{ ... }]. *)
Definition what (t : thrown) : string :=
  match t with
  | BadN => "n must be power of two and > 1"
  | BadFormat => "only constant format 8-16 bit integer and 32 bit float input supported"
  | PlaneRange => "plane index out of range"
  | PlaneTwice => "plane specified twice"
  | NumFactors => "the number of factors must be equal to either n or n*n"
  | FactorRange => "factor must be between 0.0 and 1.0 (inclusive)"
  | NumQps => "the number of qps must be equal to either n or n*n"
  | MallocFailure => "malloc failure (buffer)"
  end%string.

Inductive error :=
  | Thrown (t : thrown)          (* caught and reported as "DCTFilter: " + what *)
  | HostError (msg : string).    (* the error of an invoked host function, passed on *)

Definition error_message (e : error) : string :=
  match e with
  | Thrown t => ("DCTFilter: " ++ what t)%string
  | HostError msg => msg
  end.

Inductive result (T : Type) :=
  | Ok (x : T)
  | Err (e : error).
Arguments Ok {T} x.
Arguments Err {T} e.

Definition bind {T U : Type} (r : result T) (k : T -> result U) : result U :=
  match r with
  | Ok x => k x
  | Err e => Err e
  end.

Definition throw {T : Type} (t : thrown) : result T := Err (Thrown t).

Definition is_ok {T : Type} (r : result T) : bool :=
  match r with Ok _ => true | Err _ => false end.

(** ** Host data: formats, video info, integer conversions *)

Inductive VSSampleType := stInteger | stFloat.

Record VSFormat := {
  sampleType : VSSampleType;
  bitsPerSample : Z;
  bytesPerSample : Z;
  numPlanes : Z
}.

Record VSVideoInfo := {
  format : option VSFormat;      (* a null pointer for a variable format *)
  width : Z;
  height : Z
}.

(** VSHelper.h *)
Definition isConstantFormat (vi : VSVideoInfo) : bool :=
  (0 <? height vi) && (0 <? width vi) && bool_decide (is_Some (format vi)).

(** VSHelper.h: saturating conversion. *)
Definition int64ToIntS (i : Z) : Z :=
  if IEEE.INT_MAX <? i then IEEE.INT_MAX
  else if i <? IEEE.INT_MIN then IEEE.INT_MIN
  else i.

(** [int n = vsapi->propGetInt(...)]: the implicit conversion of an
    [int64_t] to [int] keeps the low 32 bits. *)
Definition int_of_int64 (i : Z) : Z := (i + 2 ^ 31) mod 2 ^ 32 - 2 ^ 31.

(** ** The filter graph

    [dctfilterCreate] receives a clip and returns a clip; what it builds is its
    own filter over the (possibly resized) input, possibly followed by a
    crop.  Resize and crop are functions of the host, invoked by name. *)

Section Filter.
Context {A : Arith}.

(** The two transform plans, [fftwf_plan_r2r_2d(n, n, ..., kind, kind, ...)],
    are FFTW's; [fftwf_execute_r2r] of a plan rewrites the [n*n] buffer it is
    given. *)
Inductive fftw_r2r_kind := FFTW_REDFT10 | FFTW_REDFT01.
Variable fftwf_execute_r2r : Z -> fftw_r2r_kind -> list flt -> list flt.

(** [fftwf_alloc_real (size)]: the fresh array, with whatever it holds, or
    [None] for a null pointer. *)
Variable fftwf_alloc_real : Z -> option (list flt).

Record DCTFilterData := {
  d_vi : VSVideoInfo;
  d_process : list bool;        (* bool process[3] *)
  d_peak : Z;
  d_n : Z;
  d_qps : list flt;
  d_factors : list flt;
  d_dct : list flt -> list flt;
  d_idct : list flt -> list flt
}.

Inductive node :=
  | Clip (vi : VSVideoInfo)
  | Resize_Point (width height src_width src_height : Z) (clip : node)
  | DCTFilter (d : DCTFilterData) (clip : node)
  | Crop (right bottom : Z) (clip : node).

Fixpoint getVideoInfo (nd : node) : VSVideoInfo :=
  match nd with
  | Clip vi => vi
  | Resize_Point w h _ _ c =>
      {| format := format (getVideoInfo c); width := w; height := h |}
  | DCTFilter d _ => d_vi d
  | Crop r b c =>
      let vi := getVideoInfo c in
      {| format := format vi; width := width vi - r; height := height vi - b |}
  end.

(** [vsapi->invoke]: [Some msg] when the invoked function reports an
    error. *)
Variable invoke_error : node -> option string.

Definition invoke (nd : node) : result node :=
  match invoke_error nd with
  | Some msg => Err (HostError msg)
  | None => Ok nd
  end.

(** *** Arguments of [DCTFilter] *)

Record VSMap := {
  in_clip : node;
  in_factors : list dbl;
  in_planes : option (list Z);
  in_n : option Z;
  in_qps : option (list dbl)
}.

(** [propNumElements]: -1 when the key is not set. *)
Definition propNumElements {T : Type} (v : option (list T)) : Z :=
  match v with
  | Some l => Z.of_nat (length l)
  | None => -1
  end.

(** *** The pieces of [dctfilterCreate] *)

(** [(dim & (2*n-1)) ? 2*n - dim % (2*n) : 0] *)
Definition pad (dim n : Z) : Z :=
  if Z.land dim (2 * n - 1) =? 0 then 0 else 2 * n - Z.rem dim (2 * n).

Definition format_supported (vi : VSVideoInfo) : bool :=
  match format vi with
  | None => false
  | Some f =>
      isConstantFormat vi
      && negb (match sampleType f with
               | stInteger => 16 <? bitsPerSample f
               | stFloat => negb (bitsPerSample f =? 32)
               end)
  end.

(** The loop over the [planes] argument. *)
Fixpoint select_planes (numPlanes : Z) (planes : list Z) (process : list bool)
  : result (list bool) :=
  match planes with
  | [] => Ok process
  | p :: rest =>
      let n := int64ToIntS p in
      if (n <? 0) || (numPlanes <=? n) then throw PlaneRange
      else if (process !!! Z.to_nat n : bool) then throw PlaneTwice
      else select_planes numPlanes rest (<[Z.to_nat n := true]> process)
  end.

Definition out_of_unit_range (f : dbl) : bool := d_lt f d_zero || d_lt d_one f.

(** [1.f / (d->n * d->n * 4)] *)
Definition norm (n : Z) : flt := f_div f_one (f_of_int (n * n * 4)).

(** [d->factors.resize(n * n)] and the loops that fill it. *)
Definition build_factors (n : Z) (factors : list dbl) : list flt :=
  let nfactors := Z.of_nat (length factors) in
  let d_factors := replicate (Z.to_nat (n * n)) f_zero in
  if negb (nfactors =? n) then
    for_range 0 (Z.to_nat nfactors)
      (fun i (acc : list flt) => <[i := f_mul (d_to_f (factors !!! i)) (norm n)]> acc) d_factors
  else
    for_range 0 (Z.to_nat n) (fun y =>
      for_range 0 (Z.to_nat n) (fun x (acc : list flt) =>
        <[(Z.to_nat n * y + x)%nat :=
            f_mul (d_to_f (d_mul (factors !!! y) (factors !!! x))) (norm n)]> acc))
      d_factors.

(** The expansion of [qps], before any scaling. *)
Definition expand_qps (n : Z) (qps : list dbl) (d_qps : list flt) : list flt :=
  let nqps := Z.of_nat (length qps) in
  if negb (nqps =? n) then
    for_range 0 (Z.to_nat nqps) (fun i (acc : list flt) => <[i := d_to_f (qps !!! i)]> acc) d_qps
  else
    for_range 0 (Z.to_nat n) (fun y =>
      for_range 0 (Z.to_nat n) (fun x (acc : list flt) =>
        <[(Z.to_nat n * y + x)%nat := d_to_f (d_mul (qps !!! y) (qps !!! x))]> acc))
      d_qps.

(** [d->qps[i] *= c] *)
Definition scale_at (c : flt) (i : nat) (acc : list flt) : list flt :=
  <[i := f_mul (acc !!! i) c]> acc.

Definition scale_qps (n : Z) (f : VSFormat) (d_qps : list flt) : list flt :=
  let q1 :=
    match sampleType f with
    | stInteger =>
        for_range 0 (Z.to_nat (n * n))
          (scale_at (f_of_int (Z.shiftl 1 (bitsPerSample f) - 1))) d_qps
    | stFloat => d_qps
    end in
  let q2 := scale_at (f_of_int 2) 0 q1 in
  let q3 := for_range 1 (Z.to_nat n) (scale_at (f_sqrt f_two)) q2 in
  for_range 1 (Z.to_nat n) (fun i => scale_at (f_sqrt f_two) (Z.to_nat n * i)%nat) q3.

(** [d->qps.resize(n * n)] and everything under [if (nqps > 0)]. *)
Definition build_qps (n : Z) (f : VSFormat) (qps : option (list dbl)) : result (list flt) :=
  let d_qps := replicate (Z.to_nat (n * n)) f_zero in
  let nqps := propNumElements qps in
  if 0 <? nqps then
    let qps := default [] qps in
    if negb (nqps =? n) && negb (nqps =? n * n) then throw NumQps
    else Ok (scale_qps n f (expand_qps n qps d_qps))
  else Ok d_qps.

(** *** [dctfilterCreate] *)

Definition dctfilterCreate (args : VSMap) : result node :=
  let node0 := in_clip args in
  let vi0 := getVideoInfo node0 in
  let n := match in_n args with Some v => int_of_int64 v | None => 8 end in
  if (n <? 0) || negb (Z.land n (n - 1) =? 0) then throw BadN else
  let padWidth := pad (width vi0) n in
  let padHeight := pad (height vi0) n in
  match format vi0 with
  | None => throw BadFormat
  | Some f =>
  if negb (format_supported vi0) then throw BadFormat else
  let factors := in_factors args in
  let m := propNumElements (in_planes args) in
  bind (select_planes (numPlanes f) (default [] (in_planes args))
          (replicate 3 (m <=? 0))) (fun process =>
  let nfactors := Z.of_nat (length factors) in
  if negb (nfactors =? n) && negb (nfactors =? n * n) then throw NumFactors else
  if existsb out_of_unit_range factors then throw FactorRange else
  let peak := match sampleType f with
              | stInteger => Z.shiftl 1 (bitsPerSample f) - 1
              | stFloat => 0
              end in
  bind (if negb (padWidth =? 0) || negb (padHeight =? 0)
        then invoke (Resize_Point (width vi0 + padWidth) (height vi0 + padHeight)
                       (width vi0 + padWidth) (height vi0 + padHeight) node0)
        else Ok node0) (fun node1 =>
  let d_factors := build_factors n factors in
  bind (build_qps n f (in_qps args)) (fun d_qps =>
  if negb (bool_decide (is_Some (fftwf_alloc_real (n * n)))) then throw MallocFailure else
  let d := {| d_vi := getVideoInfo node1;
              d_process := process;
              d_peak := peak;
              d_n := n;
              d_qps := d_qps;
              d_factors := d_factors;
              d_dct := fftwf_execute_r2r n FFTW_REDFT10;
              d_idct := fftwf_execute_r2r n FFTW_REDFT01 |} in
  let out := DCTFilter d node1 in
  if negb (padWidth =? 0) || negb (padHeight =? 0)
  then invoke (Crop padWidth padHeight out)
  else Ok out)))
  end.

(** The block size the construction works with. *)
Definition block_size (args : VSMap) : Z :=
  match in_n args with Some v => int_of_int64 v | None => 8 end.

(** The instance data of the filter a returned clip contains. *)
Fixpoint filter_data (nd : node) : option DCTFilterData :=
  match nd with
  | DCTFilter d _ => Some d
  | Crop _ _ c => filter_data c
  | _ => None
  end.

Definition padded (args : VSMap) : bool :=
  let vi0 := getVideoInfo (in_clip args) in
  negb (pad (width vi0) (block_size args) =? 0)
  || negb (pad (height vi0) (block_size args) =? 0).

(** ** Frames *)

(** A sample as it lies in a plane: [uint8_t] or [uint16_t] for the integer
    formats, [float] for the 32 bit float format. *)
Inductive sample :=
  | SInt (v : Z)
  | SFlt (v : flt).

#[global] Instance sample_inhabited : Inhabited sample := populate (SInt 0).

Record plane := {
  p_width : nat;               (* getFrameWidth *)
  p_height : nat;              (* getFrameHeight *)
  p_stride : nat;              (* getStride / sizeof(T) *)
  p_data : list sample         (* getReadPtr / getWritePtr *)
}.

#[global] Instance plane_inhabited : Inhabited plane :=
  populate {| p_width := 0; p_height := 0; p_stride := 0; p_data := [] |}.

Local Abbreviation VSFrameRef := (list plane).

(** The template parameter of [process]. *)
Inductive T := uint8_t | uint16_t | float.

Definition is_integral (t : T) : bool :=
  match t with float => false | _ => true end.

(** [output[xx] = input[xx]]: a stored sample converted to [float]. *)
Definition load (s : sample) : flt :=
  match s with
  | SInt v => f_of_int v
  | SFlt v => v
  end.

(** [std::min(std::max(static_cast<int>(input[xx] + 0.5f), 0), d->peak)] *)
Definition clamp_round (peak : Z) (v : flt) : Z :=
  Z.min (Z.max (f_to_int (f_add v f_half)) 0) peak.

(** The assignment to [output[xx]], with the conversion of the [int] to
    [T] for the integer formats. *)
Definition store (t : T) (peak : Z) (v : flt) : sample :=
  match t with
  | uint8_t => SInt (clamp_round peak v mod 2 ^ 8)
  | uint16_t => SInt (clamp_round peak v mod 2 ^ 16)
  | float => SFlt v
  end.

(** ** The block engine, [process<T>] *)

Local Open Scope nat_scope.

(** The values a loop [for (int x = 0; x < limit; x += n)] gives [x]; the
    fuel is enough for every [n >= 1]. *)
Fixpoint steps_from (fuel x limit n : nat) : list nat :=
  match fuel with
  | O => []
  | S fuel' => if x <? limit then x :: steps_from fuel' (x + n) limit n else []
  end.

Definition steps (limit n : nat) : list nat := steps_from limit 0 limit n.

(** Lines 75-81: the block at [srcp + x] copied into the scratch buffer. *)
Definition copy_in (n stride : nat) (src : list sample) (srcp x : nat)
    (buffer : list flt) : list flt :=
  for_range 0 n (fun yy =>
    for_range 0 n (fun xx (buf : list flt) =>
      <[n * yy + xx := load (src !!! (srcp + stride * yy + x + xx))]> buf))
    buffer.

(** [if (qps[i] > 0.0f) buffer[i] -= fmodf(buffer[i], qps[i]);] on a value. *)
Definition quantize (v q : flt) : flt :=
  if f_lt f_zero q then f_sub v (f_fmod v q) else v.

(** Lines 85-90. *)
Definition filter_step (d : DCTFilterData) (i : nat) (buffer : list flt) : list flt :=
  let buffer1 := <[i := f_mul (buffer !!! i) (d_factors d !!! i)]> buffer in
  if f_lt f_zero (d_qps d !!! i)
  then <[i := f_sub (buffer1 !!! i) (f_fmod (buffer1 !!! i) (d_qps d !!! i))]> buffer1
  else buffer1.

Definition filter (d : DCTFilterData) (n : nat) (buffer : list flt) : list flt :=
  for_range 0 (n * n) (filter_step d) buffer.

(** Lines 94-104: the scratch buffer written to the block at [dstp + x]. *)
Definition copy_out (t : T) (peak : Z) (n stride : nat) (buffer : list flt)
    (dstp x : nat) (dst : list sample) : list sample :=
  for_range 0 n (fun yy =>
    for_range 0 n (fun xx (out : list sample) =>
      <[dstp + stride * yy + x + xx := store t peak (buffer !!! (n * yy + xx))]> out))
    dst.

(** The state of the loops over one plane: the two moving pointers (as
    offsets into the plane), the scratch buffer and the plane written. *)
Record loop_state := {
  srcp : nat;
  dstp : nat;
  buffer : list flt;
  dst_data : list sample
}.

(** The body of the loop over [x]. *)
Definition process_block (t : T) (d : DCTFilterData) (n stride : nat)
    (src : list sample) (x : nat) (s : loop_state) : loop_state :=
  let b1 := copy_in n stride src (srcp s) x (buffer s) in
  let b2 := d_dct d b1 in
  let b3 := filter d n b2 in
  let b4 := d_idct d b3 in
  {| srcp := srcp s; dstp := dstp s; buffer := b4;
     dst_data := copy_out t (d_peak d) n stride b4 (dstp s) x (dst_data s) |}.

(** The body of the loop over [y]. *)
Definition process_row (t : T) (d : DCTFilterData) (n stride width : nat)
    (src : list sample) (s : loop_state) : loop_state :=
  let s' := foldl (fun s x => process_block t d n stride src x s) s (steps width n) in
  {| srcp := srcp s' + stride * n; dstp := dstp s' + stride * n;
     buffer := buffer s'; dst_data := dst_data s' |}.

Definition process_plane (t : T) (d : DCTFilterData) (src : plane)
    (buf : list flt) (dst : list sample) : loop_state :=
  let n := Z.to_nat (d_n d) in
  foldl (fun s _ => process_row t d n (p_stride src) (p_width src) (p_data src) s)
    {| srcp := 0; dstp := 0; buffer := buf; dst_data := dst |}
    (steps (p_height src) n).

Definition set_data (p : plane) (data : list sample) : plane :=
  {| p_width := p_width p; p_height := p_height p; p_stride := p_stride p;
     p_data := data |}.

(** [process<T>(src, dst, d, vsapi)], given the scratch buffer of the
    calling thread; the result is the frame written and the buffer as it
    is left. *)
Definition process (t : T) (src dst : VSFrameRef) (d : DCTFilterData)
    (buf : list flt) : VSFrameRef * list flt :=
  let numPlanes := match format (d_vi d) with
                   | Some f => Z.to_nat (numPlanes f)
                   | None => 0
                   end in
  for_range 0 numPlanes (fun plane '(dst, buf) =>
    if (d_process d !!! plane : bool) then
      let s := process_plane t d (src !!! plane) buf (p_data (dst !!! plane)) in
      (<[plane := set_data (dst !!! plane) (dst_data s)]> dst, buffer s)
    else (dst, buf))
    (dst, buf).

(** ** [dctfilterGetFrame], for [arAllFramesReady] *)

(** What a newly allocated plane of the output frame holds. *)
Variable fresh_data : nat -> list sample.

(** [newVideoFrame2 (format, width, height, fr, pl, src, core)] with
    [pl = {0, 1, 2}]: plane [i] is the plane of [fr[i]] where that is a frame
    and a new plane otherwise.  The new planes have the geometry of the
    planes of [src], a frame of the same format and dimensions. *)
Definition newVideoFrame2 (fr : list (option VSFrameRef)) (src : VSFrameRef)
  : VSFrameRef :=
  imap (fun i p =>
          match fr !!! i with
          | Some f => f !!! i
          | None => set_data p (fresh_data i)
          end) src.

(** The scratch buffers, one per thread. *)
Local Abbreviation buffers := (gmap nat (list flt)).

Definition dctfilterGetFrame (d : DCTFilterData) (threadId : nat)
    (src : VSFrameRef) (bufs : buffers) : result VSFrameRef * buffers :=
  let alloc :=
    match bufs !! threadId with
    | Some _ => Ok bufs
    | None =>
        match fftwf_alloc_real (d_n d * d_n d) with
        | None => throw MallocFailure
        | Some b => Ok (<[threadId := b]> bufs)
        end
    end in
  match alloc with
  | Err e => (Err e, bufs)
  | Ok bufs1 =>
      let fr := (fun i => if (d_process d !!! i : bool) then None else Some src)
                  <$> seq 0 3 in
      let dst := newVideoFrame2 fr src in
      let t := match format (d_vi d) with
               | Some f => if bytesPerSample f =? 1 then uint8_t
                           else if bytesPerSample f =? 2 then uint16_t
                           else float
               | None => float
               end%Z in
      let '(out, b) := process t src dst d (bufs1 !!! threadId) in
      (Ok out, <[threadId := b]> bufs1)
  end.

End Filter.

Abbreviation VSFrameRef := (list plane).
Abbreviation buffers := (gmap nat (list flt)).

(** * Vocabulary of the properties *)

(** ** Loops that update an array in place *)

Section ArrayLoops.
Context {K V : Type} `{!Inhabited V}.

(** One iteration: [a[pos k] = g k (a[pos k])]. *)
Definition update (pos : K -> nat) (g : K -> V -> V) (acc : list V) (k : K) : list V :=
  <[pos k := g k (acc !!! pos k)]> acc.

Definition fill (c : nat -> V) (lo hi : nat) (l : list V) : list V :=
  for_range lo hi (fun i (acc : list V) => <[i := c i]> acc) l.

Definition block_fill (base stride n m : nat) (c : nat -> nat -> V) (l : list V) : list V :=
  for_range 0 n (fun y => for_range 0 m (fun x (acc : list V) =>
    <[(base + stride * y + x)%nat := c y x]> acc)) l.
End ArrayLoops.

(** The index pairs of two nested loops, in the order the loops visit them. *)
Definition pairs (n m : nat) : list (nat * nat) :=
  y ← seq 0 n; (fun x => (y, x)) <$> seq 0 m.

(** ** The matrices, the rejected arguments, the blocks *)

Section Vocabulary.
Context {A : Arith}.
Local Open Scope nat_scope.

(** The expansion the specification names: the outer product for [n]
    values, the values themselves for [n * n]. *)
Definition expanded (n : nat) (v : list dbl) (y x : nat) : dbl :=
  if decide (length v = n) then d_mul (v !!! y) (v !!! x) else v !!! (n * y + x).




Local Close Scope nat_scope.












Local Open Scope nat_scope.

(** The scratch buffer after the copy of a block: it no longer depends on
    what the buffer held. *)
Definition block_in (n stride : nat) (src : list sample) (srcp x : nat) : list flt :=
  copy_in n stride src srcp x (replicate (n * n) f_zero).

(** Forward transform, coefficient step, inverse transform. *)
Definition transform_block (d : DCTFilterData) (n : nat) (b : list flt) : list flt :=
  d_idct d (filter d n (d_dct d b)).

(** What the iteration for the block at offset [off + x] writes. *)
Definition write_block (t : T) (d : DCTFilterData) (n stride : nat) (src : list sample)
    (off x : nat) (dst : list sample) : list sample :=
  copy_out t (d_peak d) n stride
    (transform_block d n (block_in n stride src off x)) off x dst.

Definition write_row (t : T) (d : DCTFilterData) (n stride : nat) (src : list sample)
    (bw off : nat) (dst : list sample) : list sample :=
  foldl (fun dst k => write_block t d n stride src off (n * k) dst) dst (seq 0 bw).

Definition write_plane (t : T) (d : DCTFilterData) (n stride : nat) (src : list sample)
    (bw bh : nat) (dst : list sample) : list sample :=
  foldl (fun dst j => write_row t d n stride src bw (stride * n * j) dst) dst (seq 0 bh).

(** The width of the integer type [T]. *)
Definition sample_bits (t : T) : Z :=
  match t with uint8_t => 8 | uint16_t => 16 | float => 32 end.

Definition process_body (t : T) (src : VSFrameRef) (d : DCTFilterData)
    (st : VSFrameRef * list flt) (plane : nat) : VSFrameRef * list flt :=
  if (d_process d !!! plane : bool) then
    let s := process_plane t d (src !!! plane) st.2 (p_data (st.1 !!! plane)) in
    (<[plane := set_data (st.1 !!! plane) (dst_data s)]> st.1, buffer s)
  else st.

(** The array [fr] handed to [newVideoFrame2]. *)
Definition unprocessed (d : DCTFilterData) (src : VSFrameRef) : list (option VSFrameRef) :=
  (fun i => if (d_process d !!! i : bool) then None else Some src) <$> seq 0 3.
End Vocabulary.

(** ** Exact arithmetic

    The same interface over the real numbers: no rounding, and the two
    transforms as the sums FFTW's manual defines them by. *)

Module Exact.
Local Open Scope R_scope.

(** Truncation toward zero. *)
Definition trunc (r : R) : Z :=
  if Rle_dec 0 r then (up r - 1)%Z else (- (up (- r) - 1))%Z.

Definition ltb (x y : R) : bool := if Rlt_dec x y then true else false.

Definition fmod (x y : R) : R := x - y * IZR (trunc (x / y)).

#[export] Instance arith : Arith := {|
  flt := R;
  dbl := R;
  f_zero := 0;
  f_half := / 2;
  f_one := 1;
  f_two := 2;
  f_of_int := IZR;
  f_to_int := trunc;
  f_add := Rplus;
  f_sub := Rminus;
  f_mul := Rmult;
  f_div := Rdiv;
  f_fmod := fmod;
  f_sqrt := sqrt;
  f_lt := ltb;
  d_zero := 0;
  d_one := 1;
  d_mul := Rmult;
  d_lt := ltb;
  d_to_f := fun x => x
|}.

Fixpoint sum_n (f : nat -> R) (n : nat) : R :=
  match n with
  | O => 0
  | S k => sum_n f k + f k
  end.

(** REDFT10: [Y_k = 2 sum_j X_j cos (pi (j + 1/2) k / n)]. *)
Definition redft10_kernel (n k j : nat) : R :=
  2 * cos (PI * (INR j + / 2) * INR k / INR n).

(** REDFT01: [Y_k = X_0 + 2 sum_(j >= 1) X_j cos (pi j (k + 1/2) / n)]. *)
Definition redft01_kernel (n k j : nat) : R :=
  if Nat.eqb j 0 then 1 else 2 * cos (PI * INR j * (INR k + / 2) / INR n).

(** A two-dimensional transform of an [n] by [n] block in row-major order:
    the one-dimensional transform along each of the two axes. *)
Definition r2r_2d (kernel : nat -> nat -> R) (n : nat) (b : list R) : list R :=
  (fun i =>
     sum_n (fun y => sum_n (fun x =>
       kernel (i / n)%nat y * kernel (i mod n)%nat x
       * default 0 (b !! (n * y + x)%nat)) n) n)
  <$> seq 0 (n * n).

(** Modelled from the spec: the transform plan.  FFTW is not part of the
    repository; the specification asks for the separable two-dimensional
    type-II (forward) and type-III (inverse) transforms without any
    normalisation, which are FFTW's REDFT10 and REDFT01. *)
Definition fftw (n : Z) (kind : fftw_r2r_kind) (b : list R) : list R :=
  match kind with
  | FFTW_REDFT10 => r2r_2d (redft10_kernel (Z.to_nat n)) (Z.to_nat n) b
  | FFTW_REDFT01 => r2r_2d (redft01_kernel (Z.to_nat n)) (Z.to_nat n) b
  end.

(** All factors 1 and no quantisation, block size 2, on an 8 bit clip of
    4x4, with allocations that succeed and host calls that do not fail. *)
Definition create_2x2 : result node :=
  dctfilterCreate fftw (fun size => Some (replicate (Z.to_nat size) 0)) (fun _ => None)
    {| in_clip := Clip {| format := Some {| sampleType := stInteger; bitsPerSample := 8;
                                             bytesPerSample := 1; numPlanes := 1 |};
                          width := 4; height := 4 |};
       in_factors := [1; 1]; in_planes := None; in_n := Some 2%Z; in_qps := None |}.

Definition plane_2x2 : plane :=
  {| p_width := 4; p_height := 2; p_stride := 6;
     p_data := SInt <$> [10; 20; 1; 2; 0; 0; 30; 40; 3; 4; 0; 0]%Z |}.

End Exact.

(** ** A concrete host

    Binary32 arithmetic, a direct evaluation of the two-point transforms for
    the block size 2, allocations that succeed and host functions that do not
    fail: what the examples below are evaluated with. *)

Module Fixture.
Import IEEE.

Definition sqrt2 : spec_float := SFsqrt prec32 emax32 (S754_finite false 8388608 (-22)).

(** REDFT10 of size 2: [Y0 = 2 (x0 + x1)], [Y1 = 2 cos(pi/4) (x0 - x1)]. *)
Definition redft10_2 (a b : spec_float) : spec_float * spec_float :=
  (f_mul f_two (f_add a b), f_mul sqrt2 (f_sub a b)).

(** REDFT01 of size 2: [y0 = X0 + 2 cos(pi/4) X1], [y1 = X0 + 2 cos(3 pi/4) X1]. *)
Definition redft01_2 (a b : spec_float) : spec_float * spec_float :=
  (f_add a (f_mul sqrt2 b), f_sub a (f_mul sqrt2 b)).

(** The transform along the rows, then along the columns, of a 2x2 block. *)
Definition r2r_2x2 (t : spec_float -> spec_float -> spec_float * spec_float)
    (buf : list spec_float) : list spec_float :=
  match buf with
  | [a; b; c; d] =>
      let '(a1, b1) := t a b in
      let '(c1, d1) := t c d in
      let '(a2, c2) := t a1 c1 in
      let '(b2, d2) := t b1 d1 in
      [a2; b2; c2; d2]
  | _ => buf
  end.

Definition fftw (n : Z) (kind : fftw_r2r_kind) (buf : list spec_float) : list spec_float :=
  if n =? 2 then
    match kind with
    | FFTW_REDFT10 => r2r_2x2 redft10_2 buf
    | FFTW_REDFT01 => r2r_2x2 redft01_2 buf
    end
  else buf.

Definition alloc (size : Z) : option (list spec_float) :=
  Some (replicate (Z.to_nat size) (S754_zero false)).

Definition no_error (nd : @node arith) : option string := None.

Definition create := dctfilterCreate fftw alloc no_error.

Definition gray8 : VSFormat :=
  {| sampleType := stInteger; bitsPerSample := 8; bytesPerSample := 1; numPlanes := 1 |}.

Definition yuv8 : VSFormat :=
  {| sampleType := stInteger; bitsPerSample := 8; bytesPerSample := 1; numPlanes := 3 |}.

Definition clip (f : VSFormat) (w h : Z) : @node arith :=
  Clip {| format := Some f; width := w; height := h |}.

(** Some [double] values. *)
Definition d_half : spec_float := S754_finite false 4503599627370496 (-53).

(** What a successful construction returns. *)
Definition created (args : @VSMap arith) : @node arith :=
  match create args with
  | Ok nd => nd
  | Err _ => in_clip args
  end.

Definition data (args : @VSMap arith) : @DCTFilterData arith :=
  match filter_data (created args) with
  | Some d => d
  | None => {| d_vi := getVideoInfo (in_clip args); d_process := []; d_peak := 0;
               d_n := 0; d_qps := []; d_factors := []; d_dct := fun b => b;
               d_idct := fun b => b |}
  end.

(** *** Arguments and frames of the examples *)

(** [DCTFilter(clip, factors=[1, 0.5], n=2, qps=[1, 1])] on a 16x16 8 bit
    clip. *)
Definition args1 : VSMap :=
  {| in_clip := clip gray8 16 16; in_factors := [d_one; d_half];
     in_planes := None; in_n := Some 2; in_qps := Some [d_one; d_one] |}.

(** The same with [planes=[0, 2]] on a 3-plane clip of 18x10. *)
Definition args2 : VSMap :=
  {| in_clip := clip yuv8 18 10; in_factors := [d_one; d_half];
     in_planes := Some [0; 2]; in_n := Some 2; in_qps := None |}.


(** A block size of 1. *)
Definition args4 : VSMap :=
  {| in_clip := clip gray8 16 16; in_factors := [d_one];
     in_planes := None; in_n := Some 1; in_qps := None |}.

(** All factors 1, no quantisation, on a 4x4 clip with three planes of
    which the first and the last are processed. *)
Definition args5 : VSMap :=
  {| in_clip := clip yuv8 4 4; in_factors := [d_one; d_one];
     in_planes := Some [0; 2]; in_n := Some 2; in_qps := None |}.

Definition plane_a : plane :=
  {| p_width := 4; p_height := 2; p_stride := 6;
     p_data := SInt <$> [10; 20; 1; 2; 0; 0; 30; 40; 3; 4; 0; 0] |}.

Definition plane_b : plane :=
  {| p_width := 4; p_height := 2; p_stride := 6;
     p_data := SInt <$> [255; 0; 0; 255; 0; 0; 7; 7; 7; 7; 0; 0] |}.

Definition frame_a : VSFrameRef := [plane_a; plane_b; plane_a].

(** The integer samples of a plane. *)
Definition ints (l : list (@sample arith)) : list Z :=
  (fun s => match s with SInt v => v | SFlt _ => -1 end) <$> l.

Definition scratch : list spec_float := replicate 4 (S754_zero false).
Definition blank : list sample := replicate 12 (SInt 0).

Definition fresh (i : nat) : list sample := blank.

Definition get_frame_a : result VSFrameRef * buffers :=
  dctfilterGetFrame (A := arith) alloc fresh (data args5) 0 frame_a ∅.

Definition frame_out : VSFrameRef :=
  match (get_frame_a).1 with
  | Ok out => out
  | Err _ => []
  end.

(** 1.625f and 0.29999998f *)
Definition x_1_625 : flt := S754_finite false 13631488 (-23).
Definition q_0_3 : flt := S754_finite false 10066329 (-25).

End Fixture.

(** * Vocabulary of the further properties *)

Section EngineVocabulary.
Context {A : Arith}.
Local Open Scope nat_scope.

(** The next multiple of [n] at or above [w]. *)
Definition round_up (n w : nat) : nat := n * ((w + n - 1) / n).

(** A plane with another width and height over the same memory. *)
Definition set_size (p : plane) (w h : nat) : plane :=
  {| p_width := w; p_height := h; p_stride := p_stride p; p_data := p_data p |}.

(** Lines 148-153: the instantiation of [process] the frame callback
    calls. *)
Definition sample_type (d : DCTFilterData) : T :=
  match format (d_vi d) with
  | Some f => if (bytesPerSample f =? 1)%Z then uint8_t
              else if (bytesPerSample f =? 2)%Z then uint16_t
              else float
  | None => float
  end.

(** Every scratch buffer of the map has the [n * n] elements [process]
    works on. *)
Definition sized (d : DCTFilterData) (bufs : buffers) : Prop :=
  forall tid b, bufs !! tid = Some b -> length b = Z.to_nat (d_n d) * Z.to_nat (d_n d).
End EngineVocabulary.

Section CreateVocabulary.
Context {A : Arith}.

Definition with_n (args : VSMap) (n : option Z) : VSMap :=
  {| in_clip := in_clip args; in_factors := in_factors args; in_planes := in_planes args;
     in_n := n; in_qps := in_qps args |}.

(** The padding of lines 192-193 with the remainder of C++: [x % 0] has
    no value. *)
Definition pad_checked (dim n : Z) : option Z :=
  if Z.land dim (2 * n - 1) =? 0 then Some 0
  else if 2 * n =? 0 then None
  else Some (2 * n - Z.rem dim (2 * n)).

(** Lines 186-193: whether the construction, past the test of [n],
    evaluates a remainder by zero. *)
Definition pad_undefined (args : VSMap) : bool :=
  let n := block_size args in
  let vi0 := getVideoInfo (in_clip args) in
  negb ((n <? 0) || negb (Z.land n (n - 1) =? 0))
  && (negb (bool_decide (is_Some (pad_checked (width vi0) n)))
      || negb (bool_decide (is_Some (pad_checked (height vi0) n)))).

(** What the test of lines 195-196 lets through. *)
Definition supported (vi : VSVideoInfo) : Prop :=
  0 < width vi /\ 0 < height vi
  /\ exists f, format vi = Some f
       /\ match sampleType f with
          | stInteger => bitsPerSample f <= 16
          | stFloat => bitsPerSample f = 32
          end.

(** VapourSynth.h: [bytesPerSample] is the smallest power of two that
    holds [bitsPerSample] bits. *)
Definition host_format (f : VSFormat) : Prop :=
  0 < bitsPerSample f
  /\ bytesPerSample f = if bitsPerSample f <=? 8 then 1
                        else if bitsPerSample f <=? 16 then 2
                        else if bitsPerSample f <=? 32 then 4 else 8.
End CreateVocabulary.

(** [check] on the [fuel] integers from [x] on. *)
Fixpoint all_from (check : Z -> bool) (fuel : nat) (x : Z) : bool :=
  match fuel with
  | O => true
  | S fuel' => check x && all_from check fuel' (x + 1)
  end.

Module Binary32Vocabulary.
Import IEEE.

(** A [double] that is neither below 0 nor above 1. *)
Definition in_unit (v : spec_float) : bool :=
  SFleb (S754_zero false) v && SFleb v (S754_finite false 4503599627370496 (-52)).

(** An integer sample converted to [float] on the way in and rounded on
    the way out comes back as it was. *)
Definition reads_back (x : Z) : bool :=
  f_to_int (f_add (load (A := arith) (SInt x)) f_half) =? x.
End Binary32Vocabulary.

(** More frames and arguments for the examples. *)
Module MoreFixture.
Import IEEE Fixture.

(** The memory of [plane_a] seen as a plane of 3x1. *)
Definition plane_c : plane :=
  {| p_width := 3; p_height := 1; p_stride := 6;
     p_data := SInt <$> [10; 20; 1; 2; 0; 0; 30; 40; 3; 4; 0; 0] |}.

(** A plane that agrees with [plane_a] on the first block only. *)
Definition plane_d : plane :=
  {| p_width := 4; p_height := 2; p_stride := 6;
     p_data := SInt <$> [10; 20; 9; 8; 7; 6; 30; 40; 5; 4; 3; 2] |}.

Definition scratch_b : list spec_float := replicate 4 f_one.

(** A 32 bit integer clip. *)
Definition args6 : VSMap :=
  {| in_clip := clip {| sampleType := stInteger; bitsPerSample := 32;
                        bytesPerSample := 4; numPlanes := 1 |} 16 16;
     in_factors := [d_one; d_one]; in_planes := None; in_n := Some 2; in_qps := None |}.

(** A host whose resize fails. *)
Definition resize_fails (nd : @node arith) : option string :=
  match nd with
  | Resize_Point _ _ _ _ _ => Some "Resize error"%string
  | _ => None
  end.

(** The message of a host error. *)
Definition host_message (r : result (@node arith)) : string :=
  match r with
  | Err (HostError msg) => msg
  | _ => EmptyString
  end.

(** The frame of [get_frame_a] asked for by another thread, which has a
    used buffer. *)
Definition get_frame_b : result VSFrameRef * buffers :=
  dctfilterGetFrame (A := arith) alloc fresh (data args5) 1 frame_a {[1%nat := scratch_b]}.

Definition frame_out_b : VSFrameRef :=
  match (get_frame_b).1 with
  | Ok out => out
  | Err _ => []
  end.

End MoreFixture.

(** * Properties *)

(** ** Loops that update an array in place *)

Section Updates.
Context {K V : Type} `{!Inhabited V}.
Variables (pos : K -> nat) (g : K -> V -> V).

Lemma foldl_update_length ks l : length (foldl (update pos g) l ks) = length l.
Proof.
  revert l. induction ks as [|k ks IH]; intros l; simpl; [done|].
  rewrite IH. apply length_insert.
Qed.

Lemma foldl_update_miss ks l i :
  (forall k, k ∈ ks -> pos k <> i) -> foldl (update pos g) l ks !! i = l !! i.
Proof.
  revert l. induction ks as [|k ks IH]; intros l Hmiss; simpl; [done|].
  rewrite IH.
  - apply list_lookup_insert_ne, Hmiss. left.
  - intros k' Hk'. apply Hmiss. by right.
Qed.

Lemma update_lookup l k : update pos g l k !! pos k = g k <$> l !! pos k.
Proof.
  unfold update. destruct (l !! pos k) as [v|] eqn:E.
  - rewrite list_lookup_insert_eq by (by eapply lookup_lt_Some).
    by rewrite (list_lookup_total_correct _ _ _ E).
  - rewrite list_insert_ge by (by apply lookup_ge_None). by rewrite E.
Qed.

Lemma foldl_update_hit ks l k :
  NoDup (pos <$> ks) -> k ∈ ks ->
  foldl (update pos g) l ks !! pos k = g k <$> l !! pos k.
Proof.
  revert l. induction ks as [|k0 ks IH]; intros l Hnd Hin.
  - by apply elem_of_nil in Hin.
  - rewrite fmap_cons in Hnd. apply NoDup_cons in Hnd as [Hk0 Hnd]. simpl.
    apply elem_of_cons in Hin as [->|Hin].
    + rewrite foldl_update_miss; [apply update_lookup|].
      intros k' Hk' Heq. apply Hk0. rewrite <- Heq. by apply list_elem_of_fmap_2.
    + rewrite IH by done. unfold update at 1.
      rewrite list_lookup_insert_ne; [done|].
      intros Heq. apply Hk0. rewrite Heq. by apply list_elem_of_fmap_2.
Qed.
End Updates.

Lemma for_range_nested {S : Type} (n m : nat) (F : nat -> nat -> S -> S) (a : S) :
  for_range 0 n (fun y => for_range 0 m (F y)) a =
  foldl (fun a p => F p.1 p.2 a) a (pairs n m).
Proof.
  unfold for_range, pairs. rewrite !Nat.sub_0_r.
  generalize (seq 0 n) as l. intros l. revert a.
  induction l as [|y l IH]; intros a; [done|].
  rewrite bind_cons, foldl_app, foldl_fmap. simpl. apply IH.
Qed.

Lemma elem_of_pairs n m y x : (y, x) ∈ pairs n m <-> (y < n)%nat /\ (x < m)%nat.
Proof.
  unfold pairs. rewrite list_elem_of_bind. split.
  - intros (y' & Hx & Hy). apply list_elem_of_fmap in Hx as (x' & [= -> ->] & Hx).
    apply elem_of_seq in Hx, Hy. lia.
  - intros [Hy Hx]. exists y. split.
    + apply list_elem_of_fmap. exists x. split; [done|]. apply elem_of_seq. lia.
    + apply elem_of_seq. lia.
Qed.

Lemma NoDup_pairs n m : NoDup (pairs n m).
Proof.
  unfold pairs. apply NoDup_bind.
  - intros y1 y2 p _ _ H1 H2.
    apply list_elem_of_fmap in H1 as (? & -> & _).
    apply list_elem_of_fmap in H2 as (? & [= ->] & _). done.
  - intros y _. apply NoDup_fmap_2_strong; [|apply NoDup_seq].
    by intros ? ? _ _ [= ->].
  - apply NoDup_seq.
Qed.

(** Positions [stride * y + x] of an [n] by [m] block are distinct when a row
    of the block fits in the stride. *)
Lemma NoDup_block_positions (base stride n m : nat) :
  (m <= stride)%nat ->
  NoDup ((fun p : nat * nat => (base + stride * p.1 + p.2)%nat) <$> pairs n m).
Proof.
  intros Hm. apply NoDup_fmap_2_strong; [|apply NoDup_pairs].
  intros [y1 x1] [y2 x2] H1 H2 Heq. simpl in Heq.
  apply elem_of_pairs in H1 as [_ H1], H2 as [_ H2].
  assert (y1 = y2) by nia. subst. f_equal. lia.
Qed.

Lemma for_range_update_hit {V : Type} `{!Inhabited V} (pos : nat -> nat) (g : nat -> V -> V)
    (lo hi : nat) (l : list V) (i : nat) :
  (forall a b, (lo <= a < hi)%nat -> (lo <= b < hi)%nat -> pos a = pos b -> a = b) ->
  (lo <= i < hi)%nat ->
  for_range lo hi (fun i acc => <[pos i := g i (acc !!! pos i)]> acc) l !! pos i
  = g i <$> l !! pos i.
Proof.
  intros Hinj Hi. unfold for_range.
  apply (foldl_update_hit pos g).
  - apply NoDup_fmap_2_strong; [|apply NoDup_seq].
    intros a b Ha Hb. apply elem_of_seq in Ha, Hb. apply Hinj; lia.
  - apply elem_of_seq. lia.
Qed.

Lemma for_range_update_miss {V : Type} `{!Inhabited V} (pos : nat -> nat) (g : nat -> V -> V)
    (lo hi : nat) (l : list V) (j : nat) :
  (forall i, (lo <= i < hi)%nat -> pos i <> j) ->
  for_range lo hi (fun i acc => <[pos i := g i (acc !!! pos i)]> acc) l !! j = l !! j.
Proof.
  intros Hmiss. unfold for_range. apply (foldl_update_miss pos g).
  intros k Hk. apply elem_of_seq in Hk. apply Hmiss. lia.
Qed.

Lemma for_range_update_length {V : Type} `{!Inhabited V} (pos : nat -> nat) (g : nat -> V -> V)
    (lo hi : nat) (l : list V) :
  length (for_range lo hi (fun i acc => <[pos i := g i (acc !!! pos i)]> acc) l) = length l.
Proof. unfold for_range. apply (foldl_update_length pos g). Qed.

(** A loop [for (i = lo; i < hi; i++) a[i] = c i]. *)
Section Fill.
Context {V : Type} `{!Inhabited V}.
Variables (c : nat -> V) (lo hi : nat).


Lemma fill_hit l i :
  (lo <= i < hi)%nat -> (i < length l)%nat -> fill c lo hi l !! i = Some (c i).
Proof.
  intros Hi Hlen. unfold fill.
  rewrite (for_range_update_hit (fun i => i) (fun i _ => c i)) by done.
  by apply lookup_lt_is_Some_2 in Hlen as [v ->].
Qed.

Lemma fill_miss l i : ~ (lo <= i < hi)%nat -> fill c lo hi l !! i = l !! i.
Proof.
  intros Hi. apply (for_range_update_miss (fun i => i) (fun i _ => c i)).
  intros j Hj ->. by apply Hi.
Qed.
End Fill.

(** Two nested loops that fill the cell [base + stride * y + x] of a block. *)
Section BlockFill.
Context {V : Type} `{!Inhabited V}.
Variables (base stride n m : nat) (c : nat -> nat -> V).

Lemma block_fill_foldl l :
  block_fill base stride n m c l =
  foldl (update (fun p : nat * nat => (base + stride * p.1 + p.2)%nat)
                (fun p _ => c p.1 p.2)) l (pairs n m).
Proof. unfold block_fill. by rewrite for_range_nested. Qed.

Lemma block_fill_length l : length (block_fill base stride n m c l) = length l.
Proof. rewrite block_fill_foldl. apply foldl_update_length. Qed.

Lemma block_fill_hit l y x :
  (m <= stride)%nat -> (y < n)%nat -> (x < m)%nat ->
  (base + stride * y + x < length l)%nat ->
  block_fill base stride n m c l !! (base + stride * y + x)%nat = Some (c y x).
Proof.
  intros Hm Hy Hx Hlen. rewrite block_fill_foldl.
  pose proof (foldl_update_hit (fun p : nat * nat => (base + stride * p.1 + p.2)%nat)
                (fun p _ => c p.1 p.2) (pairs n m) l (y, x)) as H.
  simpl in H. rewrite H.
  - apply lookup_lt_is_Some_2 in Hlen as [v ->]. done.
  - by apply NoDup_block_positions.
  - by apply elem_of_pairs.
Qed.

Lemma block_fill_miss l i :
  (forall y x, (y < n)%nat -> (x < m)%nat -> (base + stride * y + x)%nat <> i) ->
  block_fill base stride n m c l !! i = l !! i.
Proof.
  intros Hmiss. rewrite block_fill_foldl. apply foldl_update_miss.
  intros [y x] Hin. apply elem_of_pairs in Hin as [Hy Hx]. simpl. by apply Hmiss.
Qed.
End BlockFill.

(** ** The coefficient matrices *)

Section Matrices.
Context {A : Arith}.
Local Open Scope nat_scope.

Lemma Z_to_nat_square (n : Z) : (0 <= n)%Z -> Z.to_nat (n * n) = Z.to_nat n * Z.to_nat n.
Proof. intros. by rewrite Z2Nat.inj_mul. Qed.

Lemma cell_lt (n y x : nat) : y < n -> x < n -> n * y + x < n * n.
Proof. nia. Qed.

Lemma cell_inj (n y x y' x' : nat) :
  x < n -> x' < n -> n * y + x = n * y' + x' -> y = y' /\ x = x'.
Proof. intros Hx Hx' Heq. assert (y = y') by nia. subst. lia. Qed.

Lemma cell_div_mod (n y x : nat) : x < n -> (n * y + x) / n = y /\ (n * y + x) mod n = x.
Proof.
  intros Hx. split.
  - symmetry. apply (Nat.div_unique _ _ _ x); lia.
  - symmetry. apply (Nat.mod_unique _ _ y); lia.
Qed.

Lemma build_factors_eq (n : Z) (fs : list dbl) :
  build_factors n fs =
  if negb (Z.of_nat (length fs) =? n)%Z then
    fill (fun i => f_mul (d_to_f (fs !!! i)) (norm n))
      0 (Z.to_nat (Z.of_nat (length fs))) (replicate (Z.to_nat (n * n)) f_zero)
  else
    block_fill 0 (Z.to_nat n) (Z.to_nat n) (Z.to_nat n)
      (fun y x => f_mul (d_to_f (d_mul (fs !!! y) (fs !!! x))) (norm n))
      (replicate (Z.to_nat (n * n)) f_zero).
Proof. reflexivity. Qed.


Lemma build_factors_lookup (n : Z) (fs : list dbl) (y x : nat) :
  (0 <= n)%Z ->
  length fs = Z.to_nat n \/ length fs = Z.to_nat n * Z.to_nat n ->
  y < Z.to_nat n -> x < Z.to_nat n ->
  build_factors n fs !! (Z.to_nat n * y + x)
  = Some (f_mul (d_to_f (expanded (Z.to_nat n) fs y x)) (norm n)).
Proof.
  intros Hn Hlen Hy Hx. rewrite build_factors_eq. unfold expanded.
  pose proof (cell_lt _ _ _ Hy Hx) as Hcell.
  destruct (Z.eqb_spec (Z.of_nat (length fs)) n) as [Heq|Hne]; simpl.
  - rewrite decide_True by lia.
    apply (block_fill_hit 0 (Z.to_nat n) (Z.to_nat n) (Z.to_nat n)
             (fun y x => f_mul (d_to_f (d_mul (fs !!! y) (fs !!! x))) (norm n)));
      try lia.
    rewrite length_replicate, Z_to_nat_square by done. simpl. lia.
  - rewrite decide_False by lia.
    rewrite fill_hit; [done | lia |].
    rewrite length_replicate, Z_to_nat_square by done. lia.
Qed.



(** Every index below [n * n] is a cell [n * y + x]. *)
Lemma cell_of_index (n i : nat) :
  i < n * n -> exists y x, y < n /\ x < n /\ i = n * y + x.
Proof.
  intros Hi. assert (n <> 0) by lia.
  exists (i / n), (i mod n). split; [|split].
  - apply Nat.Div0.div_lt_upper_bound. lia.
  - by apply Nat.mod_upper_bound.
  - apply Nat.div_mod_eq.
Qed.

(** *** The quantisation steps *)












Lemma build_qps_omitted (n : Z) (f : VSFormat) (qps : option (list dbl)) :
  (propNumElements qps <= 0)%Z ->
  build_qps n f qps = Ok (replicate (Z.to_nat (n * n)) f_zero).
Proof.
  intros Hq. unfold build_qps.
  destruct (Z.ltb_spec 0 (propNumElements qps)); [lia|done].
Qed.

End Matrices.

(** ** Plane selection *)

Lemma int64ToIntS_small (p np : Z) :
  np <= 3 ->
  ((int64ToIntS p <? 0) || (np <=? int64ToIntS p) = false <-> 0 <= p < np)
  /\ (0 <= p < np -> int64ToIntS p = p).
Proof.
  intros Hnp. unfold int64ToIntS, IEEE.INT_MAX, IEEE.INT_MIN.
  repeat case_match; lia.
Qed.

Lemma select_planes_spec (np : Z) (l : list Z) (proc : list bool) :
  np <= 3 -> length proc = 3%nat ->
  match select_planes np l proc with
  | Ok proc' =>
      (forall p, p ∈ l -> 0 <= p < np /\ proc !!! Z.to_nat p = false)
      /\ NoDup l /\ length proc' = 3%nat
      /\ (forall i, proc' !!! i = true <-> proc !!! i = true \/ (i < 3)%nat /\ Z.of_nat i ∈ l)
  | Err e =>
      (e = Thrown PlaneRange /\ exists p, p ∈ l /\ (p < 0 \/ np <= p))
      \/ (e = Thrown PlaneTwice
          /\ (~ NoDup l \/ exists p, p ∈ l /\ 0 <= p < np /\ proc !!! Z.to_nat p = true))
  end.
Proof.
  intros Hnp. revert proc. induction l as [|p l IH]; intros proc Hlen; simpl.
  - split; [intros p Hp; by apply elem_of_nil in Hp|].
    split; [constructor|]. split; [done|].
    intros i. split; [by left|]. intros [?|[_ H]]; [done|by apply elem_of_nil in H].
  - destruct (int64ToIntS_small p np Hnp) as [Hrange Hid].
    destruct ((int64ToIntS p <? 0) || (np <=? int64ToIntS p)) eqn:Hchk.
    { left. split; [done|]. exists p. split; [left|].
      destruct (decide (0 <= p < np)) as [Hin|Hout]; [|lia].
      apply Hrange in Hin. congruence. }
    assert (0 <= p < np) as Hp by (by apply Hrange). rewrite (Hid Hp).
    destruct (proc !!! Z.to_nat p) eqn:Hseen.
    { right. split; [done|]. right. exists p. split; [left|done]. }
    specialize (IH (<[Z.to_nat p := true]> proc)).
    rewrite length_insert in IH. specialize (IH Hlen).
    destruct (select_planes np l _) as [proc'|e].
    + destruct IH as (Hall & Hnd & Hlen' & Hiff).
      assert (p ∉ l) as Hnotin.
      { intros Hin. destruct (Hall p Hin) as [_ Hf].
        rewrite list_lookup_total_insert_eq in Hf by lia. done. }
      split; [|split; [|split]].
      * intros q Hq. apply elem_of_cons in Hq as [->|Hq]; [done|].
        destruct (Hall q Hq) as [Hr Hf]. split; [done|].
        rewrite list_lookup_total_insert_ne in Hf; [done|].
        intros Heq. apply Hnotin. replace p with q by lia. done.
      * by apply NoDup_cons.
      * done.
      * intros i. rewrite Hiff. rewrite elem_of_cons.
        destruct (decide (i = Z.to_nat p)) as [->|Hne].
        -- rewrite list_lookup_total_insert_eq by lia.
           split; [|by left]. intros _. right. split; [lia|left; lia].
        -- rewrite list_lookup_total_insert_ne by done.
           split; [intros [?|[? ?]]; [by left|right; split; [done|by right]]|].
           intros [?|[? [?|?]]]; [by left|lia|right; done].
    + destruct IH as [[-> (q & Hq & Hr)]|[-> Hdup]].
      * left. split; [done|]. exists q. split; [by right|done].
      * right. split; [done|].
        destruct Hdup as [Hnd|(q & Hq & Hr & Hseen')].
        -- left. intros Hnd'. apply NoDup_cons in Hnd' as [_ ?]. done.
        -- destruct (decide (q = p)) as [->|Hne].
           ++ left. intros Hnd'. apply NoDup_cons in Hnd' as [? _]. done.
           ++ right. exists q. split; [by right|]. split; [done|].
              rewrite list_lookup_total_insert_ne in Hseen'; [done|lia].
Qed.

(** ** The test [(n & (n - 1)) != 0] *)

Lemma land_pred_pow2 (n : Z) :
  0 < n -> (Z.land n (n - 1) = 0 <-> exists k, 0 <= k /\ n = 2 ^ k).
Proof.
  intros Hn. split.
  - intros Hland. exists (Z.log2 n). split; [apply Z.log2_nonneg|].
    destruct (Z.log2_spec n Hn) as [Hlo Hhi].
    destruct (decide (n = 2 ^ Z.log2 n)) as [|Hne]; [done|exfalso].
    assert (Z.log2 (n - 1) = Z.log2 n) as Hlog.
    { apply Z.log2_unique; [apply Z.log2_nonneg|]. rewrite <- Z.add_1_r in Hhi. lia. }
    assert (Z.testbit (Z.land n (n - 1)) (Z.log2 n) = true) as Hbit.
    { rewrite Z.land_spec, Z.bit_log2 by done.
      rewrite <- Hlog. rewrite Z.bit_log2; [done|].
      pose proof (Z.pow_pos_nonneg 2 (Z.log2 n) ltac:(lia) (Z.log2_nonneg n)). lia. }
    rewrite Hland, Z.bits_0 in Hbit. done.
  - intros (k & Hk & ->).
    replace (2 ^ k - 1) with (Z.ones k) by (rewrite Z.ones_equiv; lia).
    rewrite Z.land_ones by done. apply Z_mod_same_full.
Qed.

(** What the test at the head of [dctfilterCreate] lets through. *)
Lemma check_n_accepts (n : Z) :
  (n <? 0) || negb (Z.land n (n - 1) =? 0) = false
  <-> n = 0 \/ exists k, 0 <= k /\ n = 2 ^ k.
Proof.
  rewrite orb_false_iff, negb_false_iff, Z.ltb_ge, Z.eqb_eq. split.
  - intros [Hn Hland]. destruct (decide (n = 0)) as [|Hne]; [by left|right].
    apply land_pred_pow2; [lia|done].
  - intros [->|(k & Hk & ->)]; [done|].
    pose proof (Z.pow_pos_nonneg 2 k ltac:(lia) Hk). split; [lia|].
    apply land_pred_pow2; [lia|]. by exists k.
Qed.

(** ** [dctfilterCreate] *)

Section Create.
Context {A : Arith}.
Variable fftwf_execute_r2r : Z -> fftw_r2r_kind -> list flt -> list flt.
Variable fftwf_alloc_real : Z -> option (list flt).
Variable invoke_error : node -> option string.

Local Abbreviation create :=
  (dctfilterCreate fftwf_execute_r2r fftwf_alloc_real invoke_error).

(** What a successful construction has checked and built. *)
Lemma create_ok (args : VSMap) (nd : node) :
  create args = Ok nd ->
  let n := block_size args in
  let vi0 := getVideoInfo (in_clip args) in
  exists f d node1,
    (n <? 0) || negb (Z.land n (n - 1) =? 0) = false
    /\ format vi0 = Some f /\ format_supported vi0 = true
    /\ select_planes (numPlanes f) (default [] (in_planes args))
         (replicate 3 (propNumElements (in_planes args) <=? 0)) = Ok (d_process d)
    /\ (Z.of_nat (length (in_factors args)) = n
        \/ Z.of_nat (length (in_factors args)) = n * n)
    /\ existsb out_of_unit_range (in_factors args) = false
    /\ build_qps n f (in_qps args) = Ok (d_qps d)
    /\ d_factors d = build_factors n (in_factors args)
    /\ d_n d = n
    /\ d_peak d = match sampleType f with
                  | stInteger => Z.shiftl 1 (bitsPerSample f) - 1
                  | stFloat => 0
                  end
    /\ d_vi d = getVideoInfo node1
    /\ d_dct d = fftwf_execute_r2r n FFTW_REDFT10
    /\ d_idct d = fftwf_execute_r2r n FFTW_REDFT01
    /\ filter_data nd = Some d
    /\ if padded args
       then node1 = Resize_Point (width vi0 + pad (width vi0) n)
                      (height vi0 + pad (height vi0) n)
                      (width vi0 + pad (width vi0) n)
                      (height vi0 + pad (height vi0) n) (in_clip args)
            /\ nd = Crop (pad (width vi0) n) (pad (height vi0) n) (DCTFilter d node1)
       else node1 = in_clip args /\ nd = DCTFilter d node1.
Proof.
  unfold dctfilterCreate, padded, block_size, throw, bind, invoke.
  intros H. cbv zeta.
  set (n := match in_n args with Some v => int_of_int64 v | None => 8 end) in *.
  set (vi0 := getVideoInfo (in_clip args)) in *.
  destruct ((n <? 0) || negb (Z.land n (n - 1) =? 0)) eqn:Hn; [done|].
  destruct (format vi0) as [f|] eqn:Hf; [|done].
  destruct (format_supported vi0) eqn:Hfmt; [|done]. simpl in H.
  destruct (select_planes _ _ _) as [proc|] eqn:Hsel; [|done].
  destruct (negb (_ =? n) && negb (_ =? n * n)) eqn:Hlen; [done|].
  destruct (existsb _ _) eqn:Hrange; [done|].
  assert (Z.of_nat (length (in_factors args)) = n
          \/ Z.of_nat (length (in_factors args)) = n * n) as Hlen'.
  { apply andb_false_iff in Hlen as [Hl|Hl]; apply negb_false_iff, Z.eqb_eq in Hl; auto. }
  destruct (negb (pad (width vi0) n =? 0) || negb (pad (height vi0) n =? 0)) eqn:Hpad.
  - destruct (invoke_error (Resize_Point _ _ _ _ _)) eqn:Hres; [done|].
    destruct (build_qps _ _ _) as [q|] eqn:Hq; [|done].
    destruct (negb (bool_decide _)); [done|].
    destruct (invoke_error (Crop _ _ _)) eqn:Hcrop; [done|].
    injection H as <-. eexists f, _, _. simpl. repeat split; done.
  - destruct (build_qps _ _ _) as [q|] eqn:Hq; [|done].
    destruct (negb (bool_decide _)); [done|].
    injection H as <-. eexists f, _, _. simpl. repeat split; done.
Qed.


(** A construction whose checks pass, whose allocation succeeds and whose
    host calls do not fail returns a clip. *)
Lemma create_succeeds (args : VSMap) (f : VSFormat) (proc : list bool) (q : list flt) :
  let n := block_size args in
  let vi0 := getVideoInfo (in_clip args) in
  (n <? 0) || negb (Z.land n (n - 1) =? 0) = false ->
  format vi0 = Some f -> format_supported vi0 = true ->
  select_planes (numPlanes f) (default [] (in_planes args))
    (replicate 3 (propNumElements (in_planes args) <=? 0)) = Ok proc ->
  Z.of_nat (length (in_factors args)) = n \/ Z.of_nat (length (in_factors args)) = n * n ->
  existsb out_of_unit_range (in_factors args) = false ->
  build_qps n f (in_qps args) = Ok q ->
  is_Some (fftwf_alloc_real (n * n)) ->
  (forall nd, invoke_error nd = None) ->
  is_ok (create args) = true.
Proof.
  unfold dctfilterCreate, block_size, throw, bind, invoke. cbv zeta.
  set (n := match in_n args with Some v => int_of_int64 v | None => 8 end) in *.
  set (vi0 := getVideoInfo (in_clip args)) in *.
  intros Hn Hf Hfmt Hsel Hlen Hrange Hq Halloc Hinv.
  rewrite Hn, Hf, Hfmt. simpl in *. rewrite Hsel, Hrange.
  assert (negb (Z.of_nat (length (in_factors args)) =? n)
          && negb (Z.of_nat (length (in_factors args)) =? n * n) = false) as ->.
  { destruct Hlen as [->| ->]; rewrite Z.eqb_refl; [done|apply andb_false_r]. }
  rewrite bool_decide_eq_true_2 by done. simpl.
  destruct (negb (pad (width vi0) n =? 0) || negb (pad (height vi0) n =? 0)).
  - rewrite Hinv, Hq, Hinv. done.
  - rewrite Hq. done.
Qed.



(** C10.  With [planes] omitted or empty every plane is selected; with a
    non-empty list exactly the listed planes are. *)
Theorem plane_selection (args : VSMap) (nd : node) (d : DCTFilterData) (f : VSFormat) :
  create args = Ok nd -> filter_data nd = Some d ->
  format (getVideoInfo (in_clip args)) = Some f -> numPlanes f <= 3 ->
  (propNumElements (in_planes args) <= 0 ->
     forall i : nat, (i < 3)%nat -> d_process d !!! i = true)
  /\ (forall l, in_planes args = Some l -> l <> [] ->
      forall i : nat, (i < 3)%nat -> (d_process d !!! i = true <-> Z.of_nat i ∈ l)).
Proof.
  intros Hc Hd Hf0 Hnp. destruct (create_ok _ _ Hc) as (f' & d0 & node1 & Hn & Hf & Hfmt & Hsel
    & Hlen & Hrange & Hq & Hfac & Hdn & Hpk & Hvi & Hdct & Hidct & Hfd & Hnd).
  rewrite Hf0 in Hf. injection Hf as <-.
  rewrite Hfd in Hd. injection Hd as <-.
  split.
  - intros Hm i Hi.
    assert (default [] (in_planes args) = []) as Hnil.
    { destruct (in_planes args) as [[|? ?]|]; simpl in *; [done|lia|done]. }
    rewrite Hnil in Hsel. simpl in Hsel. injection Hsel as <-.
    destruct (Z.leb_spec (propNumElements (in_planes args)) 0); [|lia].
    by destruct i as [|[|[|i]]]; [..|lia].
  - intros l Hl Hne i Hi. rewrite Hl in Hsel. simpl in Hsel.
    assert ((Z.of_nat (length l) <=? 0) = false) as Hm.
    { destruct l; [done|]. simpl. apply Z.leb_gt. lia. }
    rewrite Hm in Hsel.
    pose proof (select_planes_spec (numPlanes f) l [false; false; false] Hnp eq_refl)
      as Hspec.
    rewrite Hsel in Hspec. destruct Hspec as (_ & _ & _ & Hiff).
    rewrite Hiff. split; [|by right].
    intros [Hbad|[_ ?]]; [|done].
    destruct i as [|[|[|i]]]; cbv in Hbad; (discriminate Hbad || lia).
Qed.
(** *** Alignment *)


Lemma format_supported_dims (vi : VSVideoInfo) :
  format_supported vi = true -> 0 < width vi /\ 0 < height vi.
Proof.
  unfold format_supported, isConstantFormat. destruct (format vi); [|done].
  rewrite !andb_true_iff, !Z.ltb_lt. tauto.
Qed.

(** *** Rejected arguments *)


End Create.

(** ** The block engine *)

Lemma foldl_ext {S B : Type} (f g : S -> B -> S) (l : list B) (a : S) :
  (forall a x, f a x = g a x) -> foldl f a l = foldl g a l.
Proof.
  intros Hfg. revert a. induction l as [|x l IH]; intros a; simpl; [done|].
  by rewrite Hfg, IH.
Qed.

Lemma for_range_ext {S : Type} (lo hi : nat) (f g : nat -> S -> S) (s : S) :
  (forall i s, f i s = g i s) -> for_range lo hi f s = for_range lo hi g s.
Proof. intros Hfg. unfold for_range. apply foldl_ext. intros. apply Hfg. Qed.

(** A sequence of writers to an array, one of which sets the cell [i] while
    the others leave it alone. *)
Section Writers.
Context {K V : Type} (W : K -> list V -> list V).
Hypothesis W_length : forall k l, length (W k l) = length l.

Lemma foldl_writers_length ks l : length (foldl (fun l k => W k l) l ks) = length l.
Proof.
  revert l. induction ks as [|k ks IH]; intros l; simpl; [done|].
  by rewrite IH, W_length.
Qed.

Lemma foldl_writers_miss ks l i :
  (forall k l, k ∈ ks -> W k l !! i = l !! i) ->
  foldl (fun l k => W k l) l ks !! i = l !! i.
Proof.
  revert l. induction ks as [|k ks IH]; intros l Hmiss; simpl; [done|].
  rewrite IH; [apply Hmiss; left|]. intros k' l' Hk'. apply Hmiss. by right.
Qed.

Lemma foldl_writers_keep ks l i v :
  (forall k l, k ∈ ks -> l !! i = Some v -> W k l !! i = Some v) ->
  l !! i = Some v ->
  foldl (fun l k => W k l) l ks !! i = Some v.
Proof.
  revert l. induction ks as [|k ks IH]; intros l Hkeep Hl; simpl; [done|].
  apply IH; [|apply Hkeep; [left|done]]. intros k' l' Hk'. apply Hkeep. by right.
Qed.

Lemma foldl_writers_hit `{!EqDecision K} ks l k i v :
  k ∈ ks -> (i < length l)%nat ->
  (forall l, (i < length l)%nat -> W k l !! i = Some v) ->
  (forall k' l, k' ∈ ks -> k' <> k -> W k' l !! i = l !! i) ->
  foldl (fun l k => W k l) l ks !! i = Some v.
Proof.
  intros Hin Hlen Hhit. revert l Hlen Hin.
  induction ks as [|k0 ks IH]; intros l Hlen Hin Hmiss; [by apply elem_of_nil in Hin|].
  simpl. destruct (decide (k0 = k)) as [->|Hne].
  - apply foldl_writers_keep; [|by apply Hhit].
    intros k' l' Hk' Hl'. destruct (decide (k' = k)) as [->|Hne'].
    + apply Hhit. by eapply lookup_lt_Some.
    + rewrite Hmiss; [done|by right|done].
  - apply IH; [by rewrite W_length| |].
    + apply elem_of_cons in Hin as [->|Hin]; done.
    + intros k' l' Hk'. apply Hmiss. by right.
Qed.
End Writers.

Section Engine.
Context {A : Arith}.
Local Open Scope nat_scope.

(** *** The loop counters *)

Lemma steps_from_mul (n c fuel k : nat) :
  0 < n -> c - k <= fuel ->
  steps_from fuel (n * k) (n * c) n = (fun k => n * k) <$> seq k (c - k).
Proof.
  intros Hn. revert k. induction fuel as [|fuel IH]; intros k Hfuel; simpl.
  - by replace (c - k) with 0 by lia.
  - destruct (Nat.ltb_spec (n * k) (n * c)) as [Hlt|Hge].
    + assert (k < c) as Hk by nia.
      replace (c - k) with (S (c - S k)) by lia. simpl. f_equal.
      replace (n * k + n) with (n * S k) by lia. apply IH. lia.
    + assert (c <= k) as Hk by nia. by replace (c - k) with 0 by lia.
Qed.

Lemma steps_mul (n c : nat) : 0 < n -> steps (n * c) n = (fun k => n * k) <$> seq 0 c.
Proof.
  intros Hn. unfold steps.
  pose proof (steps_from_mul n c (n * c) 0 Hn ltac:(nia)) as H.
  by rewrite Nat.mul_0_r, Nat.sub_0_r in H.
Qed.

(** *** The coefficient step *)

Lemma filter_step_eq (d : DCTFilterData) (i : nat) (buf : list flt) :
  filter_step d i buf
  = <[i := quantize (f_mul (buf !!! i) (d_factors d !!! i)) (d_qps d !!! i)]> buf.
Proof.
  unfold filter_step, quantize.
  destruct (f_lt f_zero (d_qps d !!! i)); [|done].
  destruct (decide (i < length buf)) as [Hi|Hi].
  - by rewrite list_lookup_total_insert_eq, list_insert_insert_eq.
  - by rewrite !list_insert_ge by (rewrite ?length_insert; lia).
Qed.

Lemma filter_eq (d : DCTFilterData) (n : nat) (buf : list flt) :
  filter d n buf
  = for_range 0 (n * n)
      (fun i acc => <[i := (fun i v => quantize (f_mul v (d_factors d !!! i))
                                         (d_qps d !!! i)) i (acc !!! i)]> acc) buf.
Proof. unfold filter. apply for_range_ext. intros. apply filter_step_eq. Qed.

Lemma filter_length d n buf : length (filter d n buf) = length buf.
Proof.
  rewrite filter_eq.
  apply (for_range_update_length (fun i => i)
           (fun i v => quantize (f_mul v (d_factors d !!! i)) (d_qps d !!! i))).
Qed.

Lemma filter_lookup d n buf i :
  i < n * n ->
  filter d n buf !! i
  = (fun v => quantize (f_mul v (d_factors d !!! i)) (d_qps d !!! i)) <$> buf !! i.
Proof.
  intros Hi. rewrite filter_eq.
  apply (for_range_update_hit (fun i => i)
           (fun i v => quantize (f_mul v (d_factors d !!! i)) (d_qps d !!! i))); [|lia].
  done.
Qed.

Lemma filter_lookup_Some d n buf i v :
  i < n * n -> buf !! i = Some v ->
  filter d n buf !! i = Some (quantize (f_mul v (d_factors d !!! i)) (d_qps d !!! i)).
Proof. intros Hi Hv. by rewrite filter_lookup, Hv. Qed.

(** *** One block *)

Lemma copy_in_eq n stride src srcp x buf :
  copy_in n stride src srcp x buf
  = block_fill 0 n n n (fun yy xx => load (src !!! (srcp + stride * yy + x + xx))) buf.
Proof. reflexivity. Qed.

Lemma copy_in_length n stride src srcp x buf :
  length (copy_in n stride src srcp x buf) = length buf.
Proof. rewrite copy_in_eq. apply block_fill_length. Qed.

Lemma copy_in_lookup n stride src srcp x buf yy xx :
  length buf = n * n -> yy < n -> xx < n ->
  copy_in n stride src srcp x buf !! (n * yy + xx)
  = Some (load (src !!! (srcp + stride * yy + x + xx))).
Proof.
  intros Hlen Hy Hx. rewrite copy_in_eq.
  apply (block_fill_hit 0 n n n
           (fun yy xx => load (src !!! (srcp + stride * yy + x + xx)))); try lia.
  simpl. rewrite Hlen. by apply cell_lt.
Qed.

Lemma copy_in_block_in n stride src srcp x buf :
  length buf = n * n -> copy_in n stride src srcp x buf = block_in n stride src srcp x.
Proof.
  intros Hlen. apply list_eq. intros i. unfold block_in.
  destruct (decide (i < n * n)) as [Hi|Hi].
  - destruct (cell_of_index _ _ Hi) as (yy & xx & Hy & Hx & ->).
    rewrite !copy_in_lookup; try done. apply length_replicate.
  - rewrite !lookup_ge_None_2; [done| |]; rewrite copy_in_length, ?length_replicate; lia.
Qed.

Lemma copy_out_eq t peak n stride b dstp x dst :
  copy_out t peak n stride b dstp x dst
  = block_fill (dstp + x) stride n n (fun yy xx => store t peak (b !!! (n * yy + xx))) dst.
Proof.
  unfold copy_out, block_fill. apply for_range_ext. intros yy s.
  apply for_range_ext. intros xx s'. f_equal. lia.
Qed.

(** *** One plane *)

Section Plane.
Variables (t : T) (d : DCTFilterData) (n stride : nat) (src : list sample).
Hypothesis n_pos : 0 < n.
Hypothesis dct_length : forall b, length b = n * n -> length (d_dct d b) = n * n.
Hypothesis idct_length : forall b, length b = n * n -> length (d_idct d b) = n * n.

Lemma block_in_length off x : length (block_in n stride src off x) = n * n.
Proof. unfold block_in. by rewrite copy_in_length, length_replicate. Qed.

Lemma transform_block_length b :
  length b = n * n -> length (transform_block d n b) = n * n.
Proof.
  intros Hb. unfold transform_block. apply idct_length.
  rewrite filter_length. by apply dct_length.
Qed.

Lemma process_block_eq x s :
  length (buffer s) = n * n ->
  process_block t d n stride src x s
  = {| srcp := srcp s; dstp := dstp s;
       buffer := transform_block d n (block_in n stride src (srcp s) x);
       dst_data := copy_out t (d_peak d) n stride
                     (transform_block d n (block_in n stride src (srcp s) x))
                     (dstp s) x (dst_data s) |}.
Proof. intros Hlen. unfold process_block. by rewrite copy_in_block_in. Qed.

Lemma row_fold xs s :
  length (buffer s) = n * n -> srcp s = dstp s ->
  let s' := foldl (fun s x => process_block t d n stride src x s) s xs in
  srcp s' = srcp s /\ dstp s' = dstp s /\ length (buffer s') = n * n
  /\ dst_data s' = foldl (fun dst x => write_block t d n stride src (srcp s) x dst) (dst_data s) xs.
Proof.
  revert s. induction xs as [|x xs IH]; intros s Hlen Hp; simpl; [done|].
  rewrite process_block_eq by done.
  set (s1 := {| srcp := srcp s |}).
  destruct (IH s1) as (H1 & H2 & H3 & H4).
  - simpl. apply transform_block_length, block_in_length.
  - done.
  - simpl in *. rewrite H1, H2, H3, H4. unfold write_block. rewrite <- Hp. done.
Qed.

Lemma process_row_eq bw s :
  length (buffer s) = n * n -> srcp s = dstp s ->
  let s' := process_row t d n stride (n * bw) src s in
  srcp s' = srcp s + stride * n /\ dstp s' = srcp s' /\ length (buffer s') = n * n
  /\ dst_data s' = write_row t d n stride src bw (srcp s) (dst_data s).
Proof.
  intros Hlen Hp. unfold process_row. rewrite steps_mul by done.
  destruct (row_fold ((fun k => n * k) <$> seq 0 bw) s Hlen Hp) as (H1 & H2 & H3 & H4).
  simpl. rewrite H1, H2, H3, H4. repeat split; [lia|].
  unfold write_row. by rewrite foldl_fmap.
Qed.

Lemma plane_fold bw (ys : list nat) s :
  length (buffer s) = n * n -> srcp s = dstp s ->
  dst_data (foldl (fun s _ => process_row t d n stride (n * bw) src s) s ys)
  = foldl (fun dst j => write_row t d n stride src bw (srcp s + stride * n * j) dst) (dst_data s)
      (seq 0 (length ys)).
Proof.
  revert s. induction ys as [|y ys IH]; intros s Hlen Hp; [done|].
  destruct (process_row_eq bw s Hlen Hp) as (H1 & H2 & H3 & H4).
  cbn [foldl length seq]. rewrite IH by done.
  rewrite H1, H4, <- fmap_S_seq, foldl_fmap. rewrite Nat.mul_0_r, Nat.add_0_r.
  apply foldl_ext. intros dst j. f_equal. lia.
Qed.

Lemma process_plane_write_plane bw bh buf dst pl :
  d_n d = Z.of_nat n -> p_width pl = n * bw -> p_height pl = n * bh ->
  p_stride pl = stride -> p_data pl = src -> length buf = n * n ->
  dst_data (process_plane t d pl buf dst) = write_plane t d n stride src bw bh dst.
Proof.
  intros Hdn Hw Hh Hs Hd Hlen. unfold process_plane.
  rewrite Hdn, Nat2Z.id, Hw, Hh, Hs, Hd, steps_mul by done.
  rewrite plane_fold by done. simpl. by rewrite length_fmap, length_seq.
Qed.

(** The cells of one block. *)
Lemma write_block_length off x dst : length (write_block t d n stride src off x dst) = length dst.
Proof. unfold write_block. rewrite copy_out_eq. apply block_fill_length. Qed.

Lemma write_block_hit off x dst yy xx :
  n <= stride -> yy < n -> xx < n -> off + stride * yy + x + xx < length dst ->
  write_block t d n stride src off x dst !! (off + stride * yy + x + xx)
  = Some (store t (d_peak d)
            (transform_block d n (block_in n stride src off x) !!! (n * yy + xx))).
Proof.
  intros Hs Hy Hx Hlen. unfold write_block. rewrite copy_out_eq.
  replace (off + stride * yy + x + xx) with (off + x + stride * yy + xx) by lia.
  apply (block_fill_hit (off + x) stride n n
           (fun yy xx => store t (d_peak d)
              (transform_block d n (block_in n stride src off x) !!! (n * yy + xx))));
    try done. lia.
Qed.

Lemma write_block_miss off x dst i :
  (forall yy xx, yy < n -> xx < n -> off + stride * yy + x + xx <> i) ->
  write_block t d n stride src off x dst !! i = dst !! i.
Proof.
  intros Hmiss. unfold write_block. rewrite copy_out_eq. apply block_fill_miss.
  intros yy xx Hy Hx Heq. apply (Hmiss yy xx Hy Hx). lia.
Qed.

(** The cells of one row of blocks. *)
Lemma write_row_length bw off dst : length (write_row t d n stride src bw off dst) = length dst.
Proof.
  unfold write_row. apply (foldl_writers_length (fun k => write_block t d n stride src off (n * k))).
  intros. apply write_block_length.
Qed.

Lemma write_row_hit bw off dst k yy xx :
  n * bw <= stride -> k < bw -> yy < n -> xx < n ->
  off + stride * yy + n * k + xx < length dst ->
  write_row t d n stride src bw off dst !! (off + stride * yy + n * k + xx)
  = Some (store t (d_peak d)
            (transform_block d n (block_in n stride src off (n * k)) !!! (n * yy + xx))).
Proof.
  intros Hs Hk Hy Hx Hlen. unfold write_row.
  apply (foldl_writers_hit (fun k => write_block t d n stride src off (n * k))
           (fun k l => write_block_length off (n * k) l) _ _ k).
  - apply elem_of_seq. lia.
  - done.
  - intros l Hl. apply write_block_hit; [nia|done..].
  - intros k' l Hk' Hne. apply elem_of_seq in Hk'.
    apply write_block_miss. intros yy' xx' Hy' Hx' Heq.
    assert (n * k' + xx' < stride /\ n * k + xx < stride) as [? ?] by nia.
    pose proof (cell_inj stride yy' (n * k' + xx') yy (n * k + xx)
                  ltac:(done) ltac:(done) ltac:(lia)) as [_ Hc].
    pose proof (cell_inj n k' xx' k xx ltac:(done) ltac:(done) Hc) as [? _]. done.
Qed.

Lemma write_row_miss bw off dst i :
  (forall k yy xx, k < bw -> yy < n -> xx < n -> off + stride * yy + n * k + xx <> i) ->
  write_row t d n stride src bw off dst !! i = dst !! i.
Proof.
  intros Hmiss. unfold write_row.
  apply (foldl_writers_miss (fun k => write_block t d n stride src off (n * k))).
  intros k l Hk. apply elem_of_seq in Hk. apply write_block_miss.
  intros yy xx Hy Hx. apply Hmiss; [lia|done..].
Qed.

(** The cells of the plane. *)
Lemma write_plane_length bw bh dst : length (write_plane t d n stride src bw bh dst) = length dst.
Proof.
  unfold write_plane.
  apply (foldl_writers_length (fun j => write_row t d n stride src bw (stride * n * j))).
  intros. apply write_row_length.
Qed.

Lemma write_plane_hit bw bh dst j k yy xx :
  n * bw <= stride -> j < bh -> k < bw -> yy < n -> xx < n ->
  stride * (n * bh) <= length dst ->
  write_plane t d n stride src bw bh dst !! (stride * (n * j + yy) + n * k + xx)
  = Some (store t (d_peak d)
            (transform_block d n (block_in n stride src (stride * n * j) (n * k))
               !!! (n * yy + xx))).
Proof.
  intros Hs Hj Hk Hy Hx Hlen. unfold write_plane.
  assert (n * k + xx < stride) as Hcol by nia.
  assert (stride * (n * j + yy) + n * k + xx < length dst) as Hpos.
  { assert (n * j + yy + 1 <= n * bh) by nia.
    assert (stride * (n * j + yy + 1) <= stride * (n * bh)) by (apply Nat.mul_le_mono_l; lia).
    lia. }
  replace (stride * (n * j + yy) + n * k + xx)
    with (stride * n * j + stride * yy + n * k + xx) in * by lia.
  apply (foldl_writers_hit (fun j => write_row t d n stride src bw (stride * n * j))
           (fun j l => write_row_length bw (stride * n * j) l) _ _ j).
  - apply elem_of_seq. lia.
  - done.
  - intros l Hl. by apply write_row_hit.
  - intros j' l _ Hne. apply write_row_miss. intros k' yy' xx' Hk' Hy' Hx' Heq.
    assert (n * k' + xx' < stride) by nia.
    pose proof (cell_inj stride (n * j' + yy') (n * k' + xx') (n * j + yy) (n * k + xx)
                  ltac:(done) ltac:(done) ltac:(lia)) as [Hr _].
    pose proof (cell_inj n j' yy' j yy ltac:(done) ltac:(done) Hr) as [? _]. done.
Qed.

Lemma write_plane_miss bw bh dst i :
  (forall j k yy xx, j < bh -> k < bw -> yy < n -> xx < n ->
     stride * (n * j + yy) + n * k + xx <> i) ->
  write_plane t d n stride src bw bh dst !! i = dst !! i.
Proof.
  intros Hmiss. unfold write_plane.
  apply (foldl_writers_miss (fun j => write_row t d n stride src bw (stride * n * j))).
  intros j l Hj. apply elem_of_seq in Hj. apply write_row_miss.
  intros k yy xx Hk Hy Hx Heq. apply (Hmiss j k yy xx); [lia|done..|lia].
Qed.
End Plane.

(** *** The write-back *)

Lemma clamp_round_range (peak : Z) (v : flt) :
  (0 <= peak)%Z -> (0 <= clamp_round peak v <= peak)%Z.
Proof. unfold clamp_round. lia. Qed.

Lemma store_integral (t : T) (peak : Z) (v : flt) :
  is_integral t = true -> (0 <= peak < 2 ^ sample_bits t)%Z ->
  store t peak v = SInt (clamp_round peak v).
Proof.
  intros Ht Hpeak. pose proof (clamp_round_range peak v ltac:(lia)) as Hr.
  destruct t; [| |done]; simpl in *; by rewrite Z.mod_small by lia.
Qed.


(** *** Unselected planes *)

Lemma process_eq t src dst d buf :
  process t src dst d buf
  = foldl (process_body t src d) (dst, buf)
      (seq 0 (match format (d_vi d) with
              | Some f => Z.to_nat (numPlanes f)
              | None => 0
              end - 0)).
Proof.
  unfold process, for_range. apply foldl_ext. intros [dst' buf'] plane. done.
Qed.

Lemma process_body_unselected t src d (l : list nat) st p :
  d_process d !!! p = false ->
  (foldl (process_body t src d) st l).1 !! p = st.1 !! p.
Proof.
  intros Hp. revert st. induction l as [|q l IH]; intros st; simpl; [done|].
  rewrite IH. unfold process_body. destruct (d_process d !!! q) eqn:Hq; [|done].
  simpl. apply list_lookup_insert_ne. intros ->. congruence.
Qed.

Lemma process_body_step_agree t d src src' st st' q :
  (forall q, d_process d !!! q = true -> src !! q = src' !! q) ->
  (forall q, d_process d !!! q = true -> st.1 !! q = st'.1 !! q) ->
  st.2 = st'.2 ->
  (forall q', d_process d !!! q' = true ->
     (process_body t src d st q).1 !! q' = (process_body t src' d st' q).1 !! q')
  /\ (process_body t src d st q).2 = (process_body t src' d st' q).2.
Proof.
  intros Hsrc Hdst Hbuf. unfold process_body.
  destruct (d_process d !!! q) eqn:Hq; [|done].
  assert (src !!! q = src' !!! q) as ->
    by (by rewrite !list_lookup_total_alt, (Hsrc q Hq)).
  assert (st.1 !!! q = st'.1 !!! q) as ->
    by (by rewrite !list_lookup_total_alt, (Hdst q Hq)).
  rewrite Hbuf. split; [|done].
  intros q' Hq'. simpl. destruct (decide (q = q')) as [<-|Hne].
  - pose proof (Hdst q Hq) as E. destruct (st.1 !! q) as [x|] eqn:E1.
    + rewrite !list_lookup_insert_eq; [done| |]; eapply lookup_lt_Some; eauto.
    + rewrite !list_insert_ge; [congruence| |]; apply lookup_ge_None; congruence.
  - rewrite !list_lookup_insert_ne by done. by apply Hdst.
Qed.

Lemma process_body_agree t d (l : list nat) src src' st st' :
  (forall q, d_process d !!! q = true -> src !! q = src' !! q) ->
  (forall q, d_process d !!! q = true -> st.1 !! q = st'.1 !! q) ->
  st.2 = st'.2 ->
  (forall q, d_process d !!! q = true ->
     (foldl (process_body t src d) st l).1 !! q
     = (foldl (process_body t src' d) st' l).1 !! q)
  /\ (foldl (process_body t src d) st l).2 = (foldl (process_body t src' d) st' l).2.
Proof.
  intros Hsrc. revert st st'. induction l as [|q l IH]; intros st st' Hdst Hbuf; [done|].
  cbn [foldl].
  destruct (process_body_step_agree t d src src' st st' q Hsrc Hdst Hbuf) as [H1 H2].
  by apply IH.
Qed.
End Engine.

(** ** [dctfilterGetFrame] *)

Section GetFrame.
Context {A : Arith}.
Variable fftwf_alloc_real : Z -> option (list flt).
Variable fresh_data : nat -> list sample.

Local Abbreviation getFrame := (dctfilterGetFrame fftwf_alloc_real fresh_data).

Lemma unprocessed_lookup d src p :
  d_process d !!! p = true -> unprocessed d src !!! p = None.
Proof.
  intros Hp. unfold unprocessed.
  destruct p as [|[|[|p]]]; simpl; rewrite ?Hp; done.
Qed.

Lemma unprocessed_lookup_false d src p :
  (p < 3)%nat -> d_process d !!! p = false -> unprocessed d src !!! p = Some src.
Proof.
  intros Hlt Hp. unfold unprocessed.
  destruct p as [|[|[|p]]]; simpl; rewrite ?Hp; [done..|lia].
Qed.

Lemma newVideoFrame2_unprocessed d src p :
  (p < 3)%nat -> d_process d !!! p = false ->
  newVideoFrame2 fresh_data (unprocessed d src) src !! p = src !! p.
Proof.
  intros Hlt Hp. unfold newVideoFrame2.
  rewrite list_lookup_imap, unprocessed_lookup_false by done.
  destruct (src !! p) as [pl|] eqn:E; [|done]. simpl.
  by rewrite (list_lookup_total_correct _ _ _ E).
Qed.

Lemma newVideoFrame2_processed d src src' q :
  d_process d !!! q = true -> src' !! q = src !! q ->
  newVideoFrame2 fresh_data (unprocessed d src') src' !! q
  = newVideoFrame2 fresh_data (unprocessed d src) src !! q.
Proof.
  intros Hq Hsrc. unfold newVideoFrame2.
  by rewrite !list_lookup_imap, !unprocessed_lookup, Hsrc.
Qed.

Lemma getFrame_ok d tid src bufs out bufs' :
  getFrame d tid src bufs = (Ok out, bufs') ->
  exists t buf,
    out = (process t src (newVideoFrame2 fresh_data (unprocessed d src) src) d buf).1
    /\ forall src', exists bufs'',
         getFrame d tid src' bufs
         = (Ok (process t src' (newVideoFrame2 fresh_data (unprocessed d src') src') d buf).1,
            bufs'').
Proof.
  unfold dctfilterGetFrame, throw. fold (unprocessed d src).
  set (t := match format (d_vi d) with Some f => _ | None => _ end).
  destruct (bufs !! tid) as [b|] eqn:Hb.
  - destruct (process t src _ d _) as [o b'] eqn:Hp. intros [= <- <-].
    exists t, (bufs !!! tid). rewrite Hp. split; [done|].
    intros src'. fold (unprocessed d src').
    destruct (process t src' _ d _) as [o' b''] eqn:Hp'. eauto.
  - destruct (fftwf_alloc_real _) as [b|]; [|done].
    destruct (process t src _ d _) as [o b'] eqn:Hp. intros [= <- <-].
    exists t, (<[tid := b]> bufs !!! tid). rewrite Hp. split; [done|].
    intros src'. fold (unprocessed d src').
    destruct (process t src' _ d _) as [o' b''] eqn:Hp'. eauto.
Qed.

(** C9.  A plane that is not selected comes out as the plane of the input
    frame, and what the selected planes come out as does not depend on it:
    two input frames that agree on the selected planes give the same
    selected planes. *)
Theorem plane_pass_through (d : DCTFilterData) (tid : nat) (src : VSFrameRef)
    (bufs : buffers) (out : VSFrameRef) (bufs' : buffers) :
  getFrame d tid src bufs = (Ok out, bufs') ->
  (forall p : nat, (p < 3)%nat -> d_process d !!! p = false -> out !! p = src !! p)
  /\ (forall src' : VSFrameRef,
       (forall q, d_process d !!! q = true -> src' !! q = src !! q) ->
       exists out' bufs'',
         getFrame d tid src' bufs = (Ok out', bufs'')
         /\ forall q, d_process d !!! q = true -> out' !! q = out !! q).
Proof.
  intros Hg. destruct (getFrame_ok _ _ _ _ _ _ Hg) as (t & buf & -> & Hother). split.
  - intros p Hlt Hp. rewrite process_eq, process_body_unselected by done.
    by apply newVideoFrame2_unprocessed.
  - intros src' Hsrc. destruct (Hother src') as [bufs'' Hg'].
    eexists _, bufs''. split; [exact Hg'|].
    intros q Hq. rewrite !process_eq.
    apply process_body_agree; [done| |done|done].
    intros q' Hq'. simpl. apply newVideoFrame2_processed; auto.
Qed.
End GetFrame.

(** ** The round trip in exact arithmetic *)

Section ExactRoundTrip.
Import Exact.
Local Open Scope R_scope.

Lemma sum_n_ext (f g : nat -> R) (n : nat) :
  (forall i, (i < n)%nat -> f i = g i) -> sum_n f n = sum_n g n.
Proof.
  induction n as [|n IH]; intros H; simpl; [done|].
  rewrite IH, (H n) by (intros; (apply H || idtac); lia). done.
Qed.

Lemma sum_n_scal (c : R) (f : nat -> R) (n : nat) :
  sum_n (fun i => c * f i) n = c * sum_n f n.
Proof. induction n as [|n IH]; simpl; [lra|]. rewrite IH. lra. Qed.

Lemma sum_n_plus (f g : nat -> R) (n : nat) :
  sum_n (fun i => f i + g i) n = sum_n f n + sum_n g n.
Proof. induction n as [|n IH]; simpl; [lra|]. rewrite IH. lra. Qed.

Lemma sum_n_zero (n : nat) : sum_n (fun _ => 0) n = 0.
Proof. induction n as [|n IH]; simpl; [done|]. rewrite IH. lra. Qed.

Lemma sum_n_const (c : R) (n : nat) : sum_n (fun _ => c) n = INR n * c.
Proof.
  induction n as [|n IH]; [simpl; lra|].
  rewrite S_INR. simpl. rewrite IH. lra.
Qed.

Lemma sum_n_swap (f : nat -> nat -> R) (n m : nat) :
  sum_n (fun i => sum_n (fun j => f i j) m) n
  = sum_n (fun j => sum_n (fun i => f i j) n) m.
Proof.
  induction n as [|n IH]; simpl; [by rewrite sum_n_zero|].
  rewrite IH, <- sum_n_plus. done.
Qed.

Lemma sum_n_delta (a : nat -> R) (n j0 : nat) :
  (j0 < n)%nat ->
  sum_n (fun j => if Nat.eqb j j0 then a j else 0) n = a j0.
Proof.
  induction n as [|n IH]; [lia|]. intros Hj. simpl.
  destruct (Nat.eqb_spec n j0) as [->|Hne].
  - rewrite (sum_n_ext _ (fun _ => 0)), sum_n_zero; [lra|].
    intros i Hi. destruct (Nat.eqb_spec i j0); [lia|done].
  - rewrite IH by lia. lra.
Qed.

(** The telescoping sum behind the Dirichlet kernel. *)
Lemma dirichlet (t : R) (n : nat) :
  2 * sin t * sum_n (fun u => cos (2 * INR u * t)) n
  = sin ((2 * INR n - 1) * t) + sin t.
Proof.
  induction n as [|n IH].
  - simpl. replace ((2 * 0 - 1) * t) with (- t) by lra. rewrite sin_neg. lra.
  - cbn [sum_n]. rewrite Rmult_plus_distr_l, IH, S_INR.
    replace ((2 * (INR n + 1) - 1) * t) with (2 * INR n * t + t) by lra.
    replace ((2 * INR n - 1) * t) with (2 * INR n * t - t) by lra.
    rewrite sin_plus, sin_minus. lra.
Qed.

Lemma cos_nat_PI (m : nat) : cos (INR m * PI) = if Nat.even m then 1 else -1.
Proof.
  induction m as [|m IH].
  - simpl. rewrite Rmult_0_l. apply cos_0.
  - rewrite S_INR, Rmult_plus_distr_r, Rmult_1_l, neg_cos, IH, Nat.even_succ.
    rewrite <- Nat.negb_even. destruct (Nat.even m); simpl; lra.
Qed.

Lemma sin_nat_PI (m : nat) : sin (INR m * PI) = 0.
Proof.
  induction m as [|m IH].
  - simpl. rewrite Rmult_0_l. apply sin_0.
  - rewrite S_INR, Rmult_plus_distr_r, Rmult_1_l, neg_sin, IH. lra.
Qed.

(** The sum of [cos (u * m * pi / n)] over [u < n], for [0 < m < 2 n]. *)
Lemma cos_sum (n m : nat) :
  (0 < m < 2 * n)%nat ->
  sum_n (fun u => cos (INR u * (PI * INR m / INR n))) n
  = if Nat.even m then 0 else 1.
Proof.
  intros Hm.
  assert (0 < INR n) as Hn by (apply lt_0_INR; lia).
  assert (0 < INR m) as Hm0 by (apply lt_0_INR; lia).
  assert (INR m < 2 * INR n) as Hm1.
  { replace 2 with (INR 2) by (simpl; lra). rewrite <- mult_INR. apply lt_INR. lia. }
  set (t := PI * INR m / (2 * INR n)).
  assert (0 < t < PI) as Ht.
  { pose proof PI_RGT_0. unfold t. split.
    - apply Rdiv_lt_0_compat; nra.
    - apply (Rmult_lt_reg_r (2 * INR n)); [lra|]. field_simplify; nra. }
  pose proof (sin_gt_0 t ltac:(lra) ltac:(lra)) as Hsin.
  pose proof (dirichlet t n) as HD.
  replace ((2 * INR n - 1) * t) with (INR m * PI - t) in HD
    by (unfold t; field; lra).
  rewrite sin_minus, sin_nat_PI, cos_nat_PI in HD.
  rewrite (sum_n_ext _ (fun u => cos (2 * INR u * t))).
  - destruct (Nat.even m); nra.
  - intros i _. f_equal. unfold t. field. lra.
Qed.

Lemma cos_product (a b : R) : 2 * (cos a * cos b) = cos (a - b) + cos (a + b).
Proof. rewrite cos_minus, cos_plus. lra. Qed.

Lemma kernel_product (n j j' u : nat) :
  (0 < n)%nat ->
  redft01_kernel n j' u * redft10_kernel n u j
  = 2 * (cos (INR u * (PI * (INR j - INR j') / INR n))
         + cos (INR u * (PI * INR (j + j' + 1) / INR n)))
    - (if Nat.eqb u 0 then 2 else 0).
Proof.
  intros Hpos. unfold redft01_kernel, redft10_kernel.
  destruct (Nat.eqb_spec u 0) as [->|Hu].
  - simpl (Nat.eqb 0 0). cbv iota.
    repeat match goal with
           | |- context [cos ?x] =>
               progress replace x with 0 by (simpl; unfold Rdiv; ring)
           end.
    rewrite cos_0. lra.
  - rewrite plus_INR, plus_INR. simpl (INR 1).
    replace (2 * cos (PI * INR u * (INR j' + / 2) / INR n)
             * (2 * cos (PI * (INR j + / 2) * INR u / INR n)))
      with (2 * (2 * (cos (PI * (INR j + / 2) * INR u / INR n)
                      * cos (PI * INR u * (INR j' + / 2) / INR n)))) by lra.
    rewrite cos_product.
    assert (INR n <> 0) as Hn by (apply not_0_INR; lia).
    rewrite Rminus_0_r. f_equal. f_equal; f_equal; field; done.
Qed.

Lemma cos_sum_diff (n j j' : nat) :
  (j < n)%nat -> (j' < n)%nat -> j <> j' ->
  sum_n (fun u => cos (INR u * (PI * (INR j - INR j') / INR n))) n
  = if Nat.even (j + j') then 0 else 1.
Proof.
  intros Hj Hj' Hne.
  destruct (Nat.lt_ge_cases j' j) as [Hlt|Hge].
  - rewrite (sum_n_ext _ (fun u => cos (INR u * (PI * INR (j - j') / INR n)))).
    + rewrite cos_sum by lia.
      replace (j + j')%nat with (j - j' + 2 * j')%nat by lia.
      by rewrite Nat.even_add_mul_2.
    + intros i _. rewrite minus_INR by lia. done.
  - rewrite (sum_n_ext _ (fun u => cos (INR u * (PI * INR (j' - j) / INR n)))).
    + rewrite cos_sum by lia.
      replace (j + j')%nat with (j' - j + 2 * j)%nat by lia.
      by rewrite Nat.even_add_mul_2.
    + intros i _. rewrite minus_INR by lia. rewrite <- cos_neg. f_equal.
      unfold Rdiv. lra.
Qed.

(** REDFT01 undoes REDFT10 up to the factor [2 n]. *)
Lemma kernel_orthogonal (n j j' : nat) :
  (j < n)%nat -> (j' < n)%nat ->
  sum_n (fun u => redft01_kernel n j' u * redft10_kernel n u j) n
  = if Nat.eqb j j' then 2 * INR n else 0.
Proof.
  intros Hj Hj'.
  rewrite (sum_n_ext _ _ n (fun u _ => kernel_product n j j' u ltac:(lia))).
  unfold Rminus at 1. rewrite sum_n_plus, sum_n_scal, sum_n_plus.
  rewrite (sum_n_ext (fun i => - _) (fun i => if Nat.eqb i 0 then (fun _ => -2) i else 0)).
  2:{ intros i _. destruct (Nat.eqb i 0); lra. }
  rewrite sum_n_delta by lia.
  rewrite (cos_sum n (j + j' + 1)) by lia.
  replace (j + j' + 1)%nat with (S (j + j')) by lia.
  rewrite Nat.even_succ, <- Nat.negb_even.
  destruct (Nat.eqb_spec j j') as [->|Hne].
  - rewrite (sum_n_ext _ (fun _ => 1)), sum_n_const.
    2:{ intros i _. rewrite Rminus_diag. unfold Rdiv.
        rewrite Rmult_0_r, Rmult_0_l, Rmult_0_r. apply cos_0. }
    replace (j' + j')%nat with (2 * j')%nat by lia.
    rewrite Nat.even_mul. simpl. lra.
  - rewrite cos_sum_diff by done. destruct (Nat.even (j + j')); simpl; lra.
Qed.

(** Applied to a signal: transform, then transform back. *)
Lemma round_trip_1d (n : nat) (g : nat -> R) (j' : nat) :
  (j' < n)%nat ->
  sum_n (fun u => redft01_kernel n j' u
                  * sum_n (fun j => redft10_kernel n u j * g j) n) n
  = 2 * INR n * g j'.
Proof.
  intros Hj'.
  rewrite (sum_n_ext _ (fun u => sum_n (fun j =>
             redft01_kernel n j' u * redft10_kernel n u j * g j) n)).
  2:{ intros u _. rewrite <- sum_n_scal. apply sum_n_ext. intros. lra. }
  rewrite sum_n_swap.
  rewrite (sum_n_ext _ (fun j => if Nat.eqb j j' then (fun j => 2 * INR n * g j) j else 0)).
  - by apply sum_n_delta.
  - intros j Hj.
    rewrite (sum_n_ext _ (fun u => g j * (redft01_kernel n j' u * redft10_kernel n u j)))
      by (intros; lra).
    rewrite sum_n_scal, kernel_orthogonal by done.
    destruct (Nat.eqb j j'); lra.
Qed.

Lemma round_trip_inner (n : nat) (beta : nat -> nat -> R) (s : R) (u x' : nat) :
  (x' < n)%nat ->
  sum_n (fun v => redft01_kernel n x' v
                  * (s * sum_n (fun y => sum_n (fun x =>
                           redft10_kernel n u y * redft10_kernel n v x * beta y x) n) n)) n
  = sum_n (fun y => redft10_kernel n u y * (s * (2 * INR n * beta y x'))) n.
Proof.
  intros Hx'.
  rewrite (sum_n_ext _ (fun v => sum_n (fun y =>
             redft10_kernel n u y * s
             * (redft01_kernel n x' v
                * sum_n (fun x => redft10_kernel n v x * beta y x) n)) n)).
  2:{ intros v _. rewrite <- sum_n_scal, <- sum_n_scal. apply sum_n_ext. intros y _.
      rewrite (sum_n_ext _ (fun x => redft10_kernel n u y
                                     * (redft10_kernel n v x * beta y x)))
        by (intros; lra).
      rewrite sum_n_scal. lra. }
  rewrite sum_n_swap. apply sum_n_ext. intros y _.
  rewrite sum_n_scal, round_trip_1d by done. lra.
Qed.

Lemma round_trip_sums (n : nat) (beta : nat -> nat -> R) (s : R) (y' x' : nat) :
  (y' < n)%nat -> (x' < n)%nat ->
  sum_n (fun u => sum_n (fun v =>
    redft01_kernel n y' u * redft01_kernel n x' v
    * (s * sum_n (fun y => sum_n (fun x =>
             redft10_kernel n u y * redft10_kernel n v x * beta y x) n) n)) n) n
  = s * (2 * INR n) * (2 * INR n) * beta y' x'.
Proof.
  intros Hy' Hx'.
  rewrite (sum_n_ext _ (fun u => redft01_kernel n y' u
             * sum_n (fun y => redft10_kernel n u y * (s * (2 * INR n * beta y x'))) n)).
  2:{ intros u _. rewrite <- (round_trip_inner n beta s u x') by done.
      rewrite <- sum_n_scal. apply sum_n_ext. intros v _. lra. }
  rewrite (round_trip_1d n (fun y => s * (2 * INR n * beta y x'))) by done. lra.
Qed.

(** *** The transforms on blocks *)

Lemma r2r_2d_length (kernel : nat -> nat -> R) (n : nat) (b : list R) :
  length (r2r_2d kernel n b) = (n * n)%nat.
Proof. unfold r2r_2d. by rewrite length_fmap, length_seq. Qed.

Lemma r2r_2d_lookup (kernel : nat -> nat -> R) (n : nat) (b : list R) (y' x' : nat) :
  (y' < n)%nat -> (x' < n)%nat ->
  r2r_2d kernel n b !! (n * y' + x')%nat
  = Some (sum_n (fun y => sum_n (fun x =>
            kernel y' y * kernel x' x * default 0 (b !! (n * y + x)%nat)) n) n).
Proof.
  intros Hy Hx. unfold r2r_2d.
  rewrite list_lookup_fmap, lookup_seq_lt by (by apply cell_lt). simpl.
  by destruct (cell_div_mod n y' x' Hx) as [-> ->].
Qed.

(** The inverse transform of the scaled forward transform. *)
Lemma round_trip_2d (n : nat) (b c : list R) (s : R) (y' x' : nat) :
  (y' < n)%nat -> (x' < n)%nat ->
  (forall u v, (u < n)%nat -> (v < n)%nat ->
     c !! (n * u + v)%nat
     = (fun a => a * s) <$> r2r_2d (redft10_kernel n) n b !! (n * u + v)%nat) ->
  r2r_2d (redft01_kernel n) n c !! (n * y' + x')%nat
  = Some (s * (2 * INR n) * (2 * INR n) * default 0 (b !! (n * y' + x')%nat)).
Proof.
  intros Hy Hx Hc. rewrite r2r_2d_lookup by done. f_equal.
  rewrite <- (round_trip_sums n (fun y x => default 0 (b !! (n * y + x)%nat)) s y' x')
    by done.
  apply sum_n_ext. intros u Hu. apply sum_n_ext. intros v Hv.
  rewrite Hc, r2r_2d_lookup by done. simpl. lra.
Qed.

(** *** The write-back of an integer *)

Lemma trunc_half (x : Z) : (0 <= x)%Z -> trunc (IZR x + / 2) = x.
Proof.
  intros Hx. unfold trunc.
  pose proof (IZR_le 0 x Hx) as H0.
  destruct (Rle_dec 0 (IZR x + / 2)) as [_|Hneg]; [|lra].
  rewrite <- (tech_up (IZR x + / 2) (x + 1)); [lia| |]; rewrite plus_IZR; lra.
Qed.

Lemma clamp_round_exact (peak x : Z) :
  (0 <= x <= peak)%Z -> clamp_round (A := arith) peak (IZR x) = x.
Proof.
  intros Hx. change (Z.min (Z.max (trunc (IZR x + / 2)) 0) peak = x).
  rewrite trunc_half by lia. lia.
Qed.

(** *** The coefficient step with all factors 1 and no quantisation *)

Lemma expanded_ones (n : nat) (fs : list dbl) (y x : nat) :
  (forall v : R, v ∈ fs -> v = 1) ->
  length fs = n \/ length fs = (n * n)%nat ->
  (y < n)%nat -> (x < n)%nat ->
  expanded (A := arith) n fs y x = 1.
Proof.
  intros Hones Hlen Hy Hx. unfold expanded.
  assert (forall i, (i < length fs)%nat -> fs !!! i = 1) as Hl.
  { intros i Hi. apply Hones. apply list_elem_of_lookup. exists i.
    by apply list_lookup_lookup_total_lt. }
  pose proof (cell_lt n y x Hy Hx).
  case_decide as Hn.
  - rewrite !Hl by lia. simpl. lra.
  - apply Hl. lia.
Qed.

Lemma norm_exact (n : nat) :
  (0 < n)%nat -> norm (A := arith) (Z.of_nat n) * (2 * INR n) * (2 * INR n) = 1.
Proof.
  intros Hn. unfold norm. simpl.
  rewrite !mult_IZR, <- INR_IZR_INZ.
  assert (INR n <> 0) by (apply not_0_INR; lia). field. done.
Qed.

Lemma exact_filter_lookup (d : DCTFilterData) (n : nat) (c : list flt) (i : nat) (s : R) :
  (i < n * n)%nat -> d_qps d !!! i = 0 -> d_factors d !!! i = s ->
  filter d n c !! i = (fun a => a * s) <$> c !! i.
Proof.
  intros Hi Hq Hf. etrans; [exact (filter_lookup d n c i Hi)|].
  destruct (c !! i) as [a|]; [|done]. simpl. f_equal.
  unfold quantize.
  replace (d_qps d !!! i) with (f_zero (Arith := arith)) by (symmetry; exact Hq).
  replace (d_factors d !!! i) with s by (symmetry; exact Hf).
  simpl. unfold ltb. destruct (Rlt_dec 0 0); [lra|done].
Qed.

Lemma exact_factors (n : nat) (fs : list dbl) (u v : nat) :
  (forall a : R, a ∈ fs -> a = 1) ->
  length fs = n \/ length fs = (n * n)%nat ->
  (u < n)%nat -> (v < n)%nat ->
  build_factors (Z.of_nat n) fs !!! (n * u + v)%nat = 1 * norm (A := arith) (Z.of_nat n).
Proof.
  intros Hones Hlen Hu Hv. apply list_lookup_total_correct.
  pose proof (build_factors_lookup (Z.of_nat n) fs u v) as H.
  rewrite Nat2Z.id in H. specialize (H ltac:(lia) Hlen Hu Hv).
  rewrite expanded_ones in H by done. exact H.
Qed.

(** The round trip in exact arithmetic.  With every factor 1 and [qps] omitted, every
    cell of a processed plane of integer samples comes back as it was: the
    forward transform, the scaling by [1 / (4 n^2)], the inverse transform and
    the rounded, clamped write-back reproduce the sample. *)
Theorem round_trip_exact
    (alloc : Z -> option (list R)) (invoke_error : node -> option string)
    (args : VSMap) (nd : node) (d : DCTFilterData)
    (t : T) (pl : plane) (buf : list R) (dst : list sample)
    (n bw bh j k yy xx : nat) (x : Z) :
  dctfilterCreate (A := arith) fftw alloc invoke_error args = Ok nd ->
  filter_data nd = Some d ->
  (forall v, v ∈ in_factors args -> v = 1) -> in_qps args = None ->
  d_n d = Z.of_nat n -> (0 < n)%nat ->
  p_width pl = (n * bw)%nat -> p_height pl = (n * bh)%nat ->
  (p_width pl <= p_stride pl)%nat ->
  (p_stride pl * p_height pl <= length dst)%nat -> length buf = (n * n)%nat ->
  is_integral t = true -> (0 <= d_peak d < 2 ^ sample_bits t)%Z ->
  (j < bh)%nat /\ (k < bw)%nat /\ (yy < n)%nat /\ (xx < n)%nat ->
  p_data pl !! (p_stride pl * (n * j + yy) + n * k + xx)%nat = Some (SInt x) ->
  (0 <= x <= d_peak d)%Z ->
  dst_data (process_plane t d pl buf dst)
    !! (p_stride pl * (n * j + yy) + n * k + xx)%nat = Some (SInt x).
Proof.
  intros Hc Hd Hones Hq Hdn Hn Hw Hh Hs Hlen Hbuf Ht Hpeak (Hj & Hk & Hy & Hx) Hsrc Hrange.
  destruct (create_ok _ _ _ _ _ Hc) as (f & d0 & node1 & _ & _ & _ & _
    & Hflen & _ & Hqps & Hfac & Hdn0 & _ & _ & Hdct & Hidct & Hfd & _).
  rewrite Hfd in Hd. injection Hd as ->.
  rewrite Hdn in Hdn0. rewrite <- Hdn0 in *. clear Hdn0.
  rewrite build_qps_omitted in Hqps by (rewrite Hq; simpl; lia).
  injection Hqps as Hqps.
  assert (forall b, d_dct d b = r2r_2d (redft10_kernel n) n b) as Edct
    by (intros b; rewrite Hdct; simpl; by rewrite Nat2Z.id).
  assert (forall b, d_idct d b = r2r_2d (redft01_kernel n) n b) as Eidct
    by (intros b; rewrite Hidct; simpl; by rewrite Nat2Z.id).
  assert (forall b, length b = (n * n)%nat -> length (d_dct d b) = (n * n)%nat) as Ldct
    by (intros; rewrite Edct; apply r2r_2d_length).
  assert (forall b, length b = (n * n)%nat -> length (d_idct d b) = (n * n)%nat) as Lidct
    by (intros; rewrite Eidct; apply r2r_2d_length).
  rewrite (process_plane_write_plane t d n (p_stride pl) (p_data pl) Hn Ldct Lidct
             bw bh buf dst pl) by done.
  rewrite (write_plane_hit t d n (p_stride pl) (p_data pl) Hn bw bh dst j k yy xx)
    by (done || lia || by rewrite <- Hh).
  f_equal. rewrite store_integral by done. f_equal.
  set (B := block_in n (p_stride pl) (p_data pl) (p_stride pl * n * j) (n * k)).
  assert (transform_block d n B !! (n * yy + xx)%nat = Some (IZR x)) as Hv.
  { unfold transform_block. rewrite Eidct, Edct.
    rewrite (round_trip_2d n B _ (1 * norm (A := arith) (Z.of_nat n))); [|done|done|].
    - f_equal. rewrite Rmult_1_l, norm_exact, Rmult_1_l by done.
      assert (B !! (n * yy + xx)%nat = Some (IZR x)) as HB.
      { unfold B, block_in.
        etrans;
          [exact (copy_in_lookup (A := arith) n (p_stride pl) (p_data pl)
                    (p_stride pl * n * j) (n * k) _ yy xx
                    (length_replicate _ _) Hy Hx)|].
        replace (p_stride pl * n * j + p_stride pl * yy + n * k + xx)%nat
          with (p_stride pl * (n * j + yy) + n * k + xx)%nat by lia.
        by rewrite (list_lookup_total_correct _ _ _ Hsrc). }
      transitivity (default 0 (Some (IZR x))); [|done]. f_equal. exact HB.
    - intros u v Hu Hv. pose proof (cell_lt n u v Hu Hv) as Hcell.
      apply exact_filter_lookup; [done| |].
      + rewrite <- Hqps. apply lookup_total_replicate_2.
        rewrite Z_to_nat_square, Nat2Z.id by lia. done.
      + rewrite Hfac. apply exact_factors; try done.
        destruct Hflen as [Hl|Hl]; [left; lia|right; nia]. }
  rewrite (list_lookup_total_correct _ _ _ Hv).
  by apply clamp_round_exact.
Qed.

(** The construction of the example succeeds, and the sample 40 of its
    block 10 20 / 30 40 comes back as 40. *)
Lemma ltb_1_0 : ltb 1 0 = false.
Proof. unfold ltb. destruct (Rlt_dec 1 0); [lra|done]. Qed.

Lemma ltb_1_1 : ltb 1 1 = false.
Proof. unfold ltb. destruct (Rlt_dec 1 1); [lra|done]. Qed.

Example create_2x2_ok : is_ok create_2x2 = true.
Proof.
  unfold create_2x2.
  eapply (create_succeeds (A := arith)); try reflexivity.
  - by left.
  - simpl. unfold out_of_unit_range. simpl. by rewrite ltb_1_0, ltb_1_1.
  - simpl. eauto.
Qed.

Example round_trip_exact_2x2 (nd : node) (d : DCTFilterData) (buf : list R)
    (dst : list sample) :
  create_2x2 = Ok nd -> filter_data nd = Some d ->
  length buf = 4%nat -> (12 <= length dst)%nat ->
  dst_data (process_plane uint8_t d plane_2x2 buf dst) !! 7%nat = Some (SInt 40).
Proof.
  intros Hc Hd Hbuf Hdst.
  destruct (create_ok _ _ _ _ _ Hc) as (f & d0 & node1 & _ & Hf & _ & _ & _ & _ & _ & _
    & Hdn & Hpk & _ & _ & _ & Hfd & _).
  rewrite Hfd in Hd. injection Hd as ->. injection Hf as <-.
  change (d_peak d = 255%Z) in Hpk.
  apply (round_trip_exact _ _ _ nd d uint8_t plane_2x2 buf dst 2 2 1 0 0 1 1 40 Hc Hfd);
    try done; try (simpl; lia).
  - intros v Hv. repeat (apply elem_of_cons in Hv as [->|Hv]; [done|]).
    by apply elem_of_nil in Hv.
Qed.
End ExactRoundTrip.

(** ** The coefficient step in binary32 *)

Section Binary32.
Import IEEE Fixture.
Local Open Scope nat_scope.



(** *** Quantising twice *)




(** In binary32 the subtraction [x - fmodf (x, q)] rounds: 1.625 is
    quantised to 1.4999999, which is below five steps, and 1.4999999 to
    1.1999999, four steps. *)
Example quantize_1_625 :
  quantize x_1_625 q_0_3 = S754_finite false 12582911 (-23)
  /\ quantize (quantize x_1_625 q_0_3) q_0_3 = S754_finite false 10066329 (-23).
Proof. split; vm_compute; reflexivity. Qed.


(** A negative coefficient is pulled toward zero: -1.625 becomes
    -1.4999999. *)
Example quantize_negative :
  quantize (f_sub f_zero x_1_625) q_0_3 = S754_finite true 12582911 (-23).
Proof. vm_compute. reflexivity. Qed.
End Binary32.

(** ** The construction on concrete arguments *)

Module Examples.
Import IEEE Fixture.

Lemma created_ok (args : VSMap) :
  is_ok (create args) = true -> create args = Ok (created args).
Proof. unfold created. by destruct (create args). Qed.

Lemma data_ok (args : VSMap) :
  is_ok (create args) = true -> filter_data (created args) = Some (data args).
Proof.
  intros H. apply created_ok in H.
  destruct (create_ok _ _ _ _ _ H) as (f & d & node1 & Hrest).
  unfold data. replace (filter_data (created args)) with (Some d); [done|].
  symmetry. apply Hrest.
Qed.



Lemma plane_selection_witness :
  d_process (data args2) !!! 2%nat = true <-> 2 ∈ [0; 2].
Proof.
  pose proof (plane_selection fftw alloc no_error args2 (created args2) (data args2) yuv8
                (created_ok args2 ltac:(vm_compute; reflexivity))
                (data_ok args2 ltac:(vm_compute; reflexivity))
                ltac:(reflexivity) ltac:(simpl; lia)) as [_ H].
  exact (H [0; 2] ltac:(reflexivity) ltac:(discriminate) 2%nat ltac:(lia)).
Defined.




(** The block size 1 passes the test that reports "n must be power of two
    and > 1". *)
Example block_size_one_accepted : is_ok (create args4) = true.
Proof. vm_compute. reflexivity. Qed.

(** *** The engine on concrete frames *)

Lemma fftw_length (n : Z) (kind : fftw_r2r_kind) (b : list spec_float) :
  length (fftw n kind b) = length b.
Proof.
  unfold fftw. destruct (n =? 2); [|done].
  destruct kind; destruct b as [|a [|b [|c [|d [|e l]]]]]; try done; simpl;
    repeat match goal with |- context [let '(_, _) := ?p in _] => destruct p end; done.
Qed.

Lemma data_transforms (args : VSMap) :
  is_ok (create args) = true ->
  d_dct (data args) = fftw (block_size args) FFTW_REDFT10
  /\ d_idct (data args) = fftw (block_size args) FFTW_REDFT01.
Proof.
  intros H. pose proof (data_ok args H) as Hd. apply created_ok in H.
  destruct (create_ok _ _ _ _ _ H) as (f & d & node1 & Hrest).
  destruct Hrest as (_ & _ & _ & _ & _ & _ & _ & _ & _ & _ & _ & Hdct & Hidct & Hfd & _).
  rewrite Hfd in Hd. injection Hd as ->. done.
Qed.

(** The round trip of the block 10 20 / 30 40 (and of its neighbour) with
    all factors 1, in binary32 with the two-point transforms evaluated
    directly. *)
Example round_trip_2x2 :
  ints (dst_data (process_plane uint8_t (data args5) plane_a scratch blank))
  = [10; 20; 1; 2; 0; 0; 30; 40; 3; 4; 0; 0].
Proof. vm_compute. reflexivity. Qed.




Lemma frame_out_ok :
  get_frame_a
  = (Ok frame_out, (get_frame_a).2).
Proof.
  unfold frame_out.
  assert (is_ok (get_frame_a).1 = true) as H
    by (vm_compute; reflexivity).
  destruct (get_frame_a) as [[o|e] b]; done.
Qed.

Lemma plane_pass_through_witness : frame_out !! 1%nat = frame_a !! 1%nat.
Proof.
  pose proof (plane_pass_through (A := arith) alloc fresh (data args5) 0 frame_a ∅
                frame_out _ frame_out_ok) as [H _].
  apply H; [lia|]. vm_compute. reflexivity.
Defined.

(** The frame that comes out: the processed planes reproduce the input,
    the middle plane is the input's. *)
Example frame_out_value :
  (fun pl => ints (p_data pl)) <$> frame_out
  = (fun pl => ints (p_data pl)) <$> frame_a.
Proof. vm_compute. reflexivity. Qed.

End Examples.

(** * Further properties *)

(** ** The block loops *)

Section Blocks.
Context {A : Arith}.
Local Open Scope nat_scope.

Lemma ceil_gt (n limit k : nat) : 0 < n -> n * k < limit <-> k < (limit + n - 1) / n.
Proof.
  intros Hn. pose proof (Nat.div_mod_eq (limit + n - 1) n) as E.
  pose proof (Nat.mod_upper_bound (limit + n - 1) n ltac:(lia)) as B.
  split; intros H; nia.
Qed.

Lemma steps_from_ceil (n limit fuel k : nat) :
  0 < n -> (limit + n - 1) / n - k <= fuel ->
  steps_from fuel (n * k) limit n
  = (fun k => n * k) <$> seq k ((limit + n - 1) / n - k).
Proof.
  intros Hn. revert k. induction fuel as [|fuel IH]; intros k Hf.
  - replace ((limit + n - 1) / n - k) with 0 by lia. done.
  - simpl. destruct (n * k <? limit) eqn:Hlt.
    + apply Nat.ltb_lt, ceil_gt in Hlt; [|done].
      replace ((limit + n - 1) / n - k) with (S ((limit + n - 1) / n - S k)) by lia.
      simpl. f_equal. replace (n * k + n) with (n * S k) by lia.
      apply IH. lia.
    + apply Nat.ltb_ge in Hlt.
      assert (~ k < (limit + n - 1) / n) by (rewrite <- ceil_gt by done; lia).
      replace ((limit + n - 1) / n - k) with 0 by lia. done.
Qed.

Lemma ceil_le (n limit : nat) : 0 < n -> (limit + n - 1) / n <= limit.
Proof.
  intros Hn. destruct (decide ((limit + n - 1) / n <= limit)) as [|Hgt]; [done|].
  assert (limit < (limit + n - 1) / n) as H by lia.
  apply ceil_gt in H; [nia|done].
Qed.

(** The offsets a loop [for (x = 0; x < limit; x += n)] visits. *)
Lemma steps_offsets (n limit : nat) :
  0 < n -> steps limit n = (fun k => n * k) <$> seq 0 ((limit + n - 1) / n).
Proof.
  intros Hn. unfold steps.
  pose proof (steps_from_ceil n limit limit 0 Hn) as H.
  rewrite Nat.mul_0_r, Nat.sub_0_r in H. apply H. by apply ceil_le.
Qed.

Lemma round_up_spec (n w : nat) :
  0 < n -> w <= round_up n w < w + n /\ (round_up n w = w <-> w mod n = 0).
Proof.
  intros Hn. unfold round_up.
  pose proof (Nat.div_mod_eq (w + n - 1) n) as E.
  pose proof (Nat.mod_upper_bound (w + n - 1) n ltac:(lia)) as B.
  pose proof (Nat.div_mod_eq w n) as E'.
  pose proof (Nat.mod_upper_bound w n ltac:(lia)) as B'.
  revert E B E' B'.
  generalize ((w + n - 1) / n) ((w + n - 1) mod n) (w / n) (w mod n).
  intros c r c' r' E B E' B'.
  split; [lia|]. split; intros H.
  - assert (n * c = n * c' + r') as H' by lia.
    assert (c = c') by nia. nia.
  - subst r'. assert (c = c') by nia. subst c'. lia.
Qed.

Lemma steps_round_up (n w : nat) : 0 < n -> steps (round_up n w) n = steps w n.
Proof.
  intros Hn. rewrite !steps_offsets by done. f_equal. f_equal.
  unfold round_up.
  pose proof (Nat.div_mod_eq (n * ((w + n - 1) / n) + n - 1) n) as E.
  pose proof (Nat.mod_upper_bound (n * ((w + n - 1) / n) + n - 1) n ltac:(lia)) as B.
  revert E B.
  generalize ((n * ((w + n - 1) / n) + n - 1) / n) ((n * ((w + n - 1) / n) + n - 1) mod n)
    ((w + n - 1) / n).
  intros c r c' E B. nia.
Qed.

(** X1.  The two block loops step by [n] from 0 while the offset is below
    the width (the height): they visit the offsets [n * k] for [k] below the
    width divided by [n] and rounded up.  So a plane whose width or height is
    not a multiple of [n] is processed in whole blocks, exactly as the plane
    extended to the next multiples of [n] is, the last blocks reaching up to
    [n - 1] samples past the width and the height. *)
Theorem partial_blocks (t : T) (d : DCTFilterData) (pl : plane) (buf : list flt)
    (dst : list sample) :
  let n := Z.to_nat (d_n d) in
  0 < n ->
  steps (p_width pl) n = (fun k => n * k) <$> seq 0 ((p_width pl + n - 1) / n)
  /\ process_plane t d pl buf dst
     = process_plane t d (set_size pl (round_up n (p_width pl)) (round_up n (p_height pl)))
         buf dst
  /\ (p_width pl <= round_up n (p_width pl) < p_width pl + n)
  /\ (round_up n (p_width pl) = p_width pl <-> p_width pl mod n = 0).
Proof.
  intros n Hn. split; [by apply steps_offsets|]. split; [|by apply round_up_spec].
  unfold process_plane, set_size. cbn [p_width p_height p_stride p_data].
  subst n. rewrite steps_round_up by done.
  apply foldl_ext. intros s _. unfold process_row. by rewrite steps_round_up.
Qed.
End Blocks.

(** ** The scratch buffer *)

Section Scratch.
Context {A : Arith}.
Local Open Scope nat_scope.
Variables (t : T) (d : DCTFilterData) (n stride : nat) (src : list sample).

Lemma process_block_scratch x s s' :
  srcp s = srcp s' -> dstp s = dstp s' -> dst_data s = dst_data s' ->
  buffer s = buffer s' \/ (length (buffer s) = n * n /\ length (buffer s') = n * n) ->
  process_block t d n stride src x s = process_block t d n stride src x s'.
Proof.
  intros Hs Hd Hdst Hb. unfold process_block. rewrite Hs, Hd, Hdst.
  assert (copy_in n stride src (srcp s') x (buffer s)
          = copy_in n stride src (srcp s') x (buffer s')) as ->; [|done].
  destruct Hb as [->|[H H']]; [done|]. by rewrite !copy_in_block_in.
Qed.

Lemma blocks_scratch xs s s' :
  srcp s = srcp s' -> dstp s = dstp s' -> dst_data s = dst_data s' ->
  buffer s = buffer s' \/ (length (buffer s) = n * n /\ length (buffer s') = n * n) ->
  let r := foldl (fun s x => process_block t d n stride src x s) s xs in
  let r' := foldl (fun s x => process_block t d n stride src x s) s' xs in
  srcp r = srcp r' /\ dstp r = dstp r' /\ dst_data r = dst_data r'
  /\ (buffer r = buffer r' \/ (length (buffer r) = n * n /\ length (buffer r') = n * n)).
Proof.
  intros Hs Hd Hdst Hb. destruct xs as [|x xs]; [done|]. simpl.
  rewrite (process_block_scratch x s s') by done. auto.
Qed.

Lemma process_row_scratch w s s' :
  srcp s = srcp s' -> dstp s = dstp s' -> dst_data s = dst_data s' ->
  buffer s = buffer s' \/ (length (buffer s) = n * n /\ length (buffer s') = n * n) ->
  let r := process_row t d n stride w src s in
  let r' := process_row t d n stride w src s' in
  srcp r = srcp r' /\ dstp r = dstp r' /\ dst_data r = dst_data r'
  /\ (buffer r = buffer r' \/ (length (buffer r) = n * n /\ length (buffer r') = n * n)).
Proof.
  intros Hs Hd Hdst Hb. unfold process_row. simpl.
  destruct (blocks_scratch (steps w n) s s' Hs Hd Hdst Hb) as (-> & -> & -> & H).
  done.
Qed.

Lemma rows_scratch w (ys : list nat) s s' :
  srcp s = srcp s' -> dstp s = dstp s' -> dst_data s = dst_data s' ->
  buffer s = buffer s' \/ (length (buffer s) = n * n /\ length (buffer s') = n * n) ->
  let r := foldl (fun s _ => process_row t d n stride w src s) s ys in
  let r' := foldl (fun s _ => process_row t d n stride w src s) s' ys in
  dst_data r = dst_data r'
  /\ (buffer r = buffer r' \/ (length (buffer r) = n * n /\ length (buffer r') = n * n)).
Proof.
  revert s s'. induction ys as [|y ys IH]; intros s s' Hs Hd Hdst Hb; [done|].
  simpl. destruct (process_row_scratch w s s' Hs Hd Hdst Hb) as (H1 & H2 & H3 & H4).
  by apply IH.
Qed.
End Scratch.

Section ScratchPlane.
Context {A : Arith}.
Local Open Scope nat_scope.

Lemma process_plane_scratch (t : T) (d : DCTFilterData) (pl : plane)
    (buf buf' : list flt) (dst : list sample) :
  let n := Z.to_nat (d_n d) in
  buf = buf' \/ (length buf = n * n /\ length buf' = n * n) ->
  let r := process_plane t d pl buf dst in
  let r' := process_plane t d pl buf' dst in
  dst_data r = dst_data r'
  /\ (buffer r = buffer r' \/ (length (buffer r) = n * n /\ length (buffer r') = n * n)).
Proof. intros n Hb. unfold process_plane. by apply rows_scratch. Qed.

(** X2.  What [process] writes to a plane does not depend on what the
    scratch buffer of the thread holds on entry: the copy of lines 75-81
    overwrites all of its [n * n] elements before the first transform. *)
Theorem scratch_independent (t : T) (d : DCTFilterData) (pl : plane)
    (buf buf' : list flt) (dst : list sample) :
  let n := Z.to_nat (d_n d) in
  length buf = n * n -> length buf' = n * n ->
  dst_data (process_plane t d pl buf dst) = dst_data (process_plane t d pl buf' dst).
Proof. intros n H H'. apply process_plane_scratch. by right. Qed.

Lemma process_body_scratch t src d st st' p :
  let n := Z.to_nat (d_n d) in
  st.1 = st'.1 ->
  st.2 = st'.2 \/ (length st.2 = n * n /\ length st'.2 = n * n) ->
  let r := process_body t src d st p in
  let r' := process_body t src d st' p in
  r.1 = r'.1 /\ (r.2 = r'.2 \/ (length r.2 = n * n /\ length r'.2 = n * n)).
Proof.
  intros n H1 H2. unfold process_body. destruct (d_process d !!! p); [|done].
  simpl. rewrite H1.
  destruct (process_plane_scratch t d (src !!! p) st.2 st'.2 (p_data (st'.1 !!! p)) H2)
    as [-> H]. done.
Qed.

Lemma process_scratch t src dst d buf buf' :
  let n := Z.to_nat (d_n d) in
  length buf = n * n -> length buf' = n * n ->
  (process t src dst d buf).1 = (process t src dst d buf').1.
Proof.
  intros n H H'. rewrite !process_eq.
  generalize (seq 0 (match format (d_vi d) with
                     | Some f => Z.to_nat (numPlanes f)
                     | None => 0
                     end - 0)).
  intros l.
  assert (forall st st' : VSFrameRef * list flt,
            st.1 = st'.1 ->
            st.2 = st'.2 \/ (length st.2 = n * n /\ length st'.2 = n * n) ->
            (foldl (process_body t src d) st l).1 = (foldl (process_body t src d) st' l).1)
    as Hfold.
  { induction l as [|p l IH]; intros st st' H1 H2; [done|]. simpl.
    destruct (process_body_scratch t src d st st' p H1 H2) as [H3 H4]. by apply IH. }
  apply Hfold; [done|]. right. done.
Qed.
End ScratchPlane.

(** ** Where the write-back writes *)

Section Confinement.
Context {A : Arith}.
Local Open Scope nat_scope.
Variables (t : T) (d : DCTFilterData) (n stride : nat) (src : list sample).

Lemma process_block_untouched x s i :
  (forall yy xx, yy < n -> xx < n -> dstp s + x + stride * yy + xx <> i) ->
  dst_data (process_block t d n stride src x s) !! i = dst_data s !! i.
Proof.
  intros H. unfold process_block. simpl. rewrite copy_out_eq.
  by apply block_fill_miss.
Qed.

Lemma process_block_dst_length x s :
  length (dst_data (process_block t d n stride src x s)) = length (dst_data s).
Proof. unfold process_block. simpl. rewrite copy_out_eq. apply block_fill_length. Qed.

Lemma blocks_untouched xs s i :
  (forall x yy xx, x ∈ xs -> yy < n -> xx < n -> dstp s + x + stride * yy + xx <> i) ->
  let r := foldl (fun s x => process_block t d n stride src x s) s xs in
  dstp r = dstp s /\ dst_data r !! i = dst_data s !! i
  /\ length (dst_data r) = length (dst_data s).
Proof.
  revert s. induction xs as [|x xs IH]; intros s H; [done|]. simpl.
  destruct (IH (process_block t d n stride src x s)) as (H1 & H2 & H3).
  { intros x' yy xx Hx'. apply H. by right. }
  rewrite H1, H2, H3. split; [done|]. split.
  - apply process_block_untouched. intros yy xx. apply H. by left.
  - apply process_block_dst_length.
Qed.

Lemma rows_untouched w (ys : list nat) s i j0 :
  dstp s = stride * n * j0 ->
  (forall j x yy xx, j0 <= j < j0 + length ys -> x ∈ steps w n -> yy < n -> xx < n ->
     stride * n * j + x + stride * yy + xx <> i) ->
  let r := foldl (fun s _ => process_row t d n stride w src s) s ys in
  dst_data r !! i = dst_data s !! i /\ length (dst_data r) = length (dst_data s).
Proof.
  revert s j0. induction ys as [|y ys IH]; intros s j0 Hd H; [done|]. simpl.
  destruct (blocks_untouched (steps w n) s i) as (H1 & H2 & H3).
  { intros x yy xx Hx Hyy Hxx. rewrite Hd. apply H; simpl; [lia|done..]. }
  destruct (IH (process_row t d n stride w src s) (S j0)) as [H4 H5].
  { unfold process_row. simpl. rewrite H1, Hd. lia. }
  { intros j x yy xx Hj. apply H. simpl. lia. }
  rewrite H4, H5. unfold process_row. simpl. done.
Qed.
End Confinement.

Section ConfinementPlane.
Context {A : Arith}.
Local Open Scope nat_scope.

Lemma elem_of_steps (n w x : nat) :
  0 < n -> x ∈ steps w n -> exists k, x = n * k /\ n * k < round_up n w.
Proof.
  intros Hn. rewrite steps_offsets by done. intros (k & -> & Hk)%list_elem_of_fmap.
  apply elem_of_seq in Hk. exists k. split; [done|]. unfold round_up. nia.
Qed.

Lemma cell_below (n k xx w : nat) :
  xx < n -> n * k < round_up n w -> n * k + xx < round_up n w.
Proof.
  unfold round_up. intros Hxx Hk.
  assert (k < (w + n - 1) / n) by nia. nia.
Qed.

(** X3.  [process] writes to the cells of the blocks only.  When the
    blocks of a row fit into the stride, a cell whose column is at or past
    the width rounded up to a multiple of [n] (the padding of the stride), or
    that lies past the last row of blocks, keeps the value it had, and the
    plane keeps its length. *)
Theorem padding_untouched (t : T) (d : DCTFilterData) (pl : plane) (buf : list flt)
    (dst : list sample) (i : nat) :
  let n := Z.to_nat (d_n d) in
  0 < n -> round_up n (p_width pl) <= p_stride pl ->
  round_up n (p_width pl) <= i mod p_stride pl
  \/ p_stride pl * round_up n (p_height pl) <= i ->
  dst_data (process_plane t d pl buf dst) !! i = dst !! i
  /\ length (dst_data (process_plane t d pl buf dst)) = length dst.
Proof.
  intros n Hn Hw Hi. unfold process_plane. fold n.
  apply (rows_untouched t d n (p_stride pl) (p_data pl) (p_width pl)
           (steps (p_height pl) n)
           {| srcp := 0; dstp := 0; buffer := buf; dst_data := dst |} i 0); [simpl; lia|].
  intros j x yy xx Hj Hx Hyy Hxx E.
  apply elem_of_steps in Hx as (k & -> & Hk); [|done].
  assert (n * j < round_up n (p_height pl)) as Hjh.
  { rewrite steps_offsets, length_fmap, length_seq in Hj by done. unfold round_up. nia. }
  pose proof (cell_below n k xx _ Hxx Hk) as Hc.
  pose proof (cell_below n j yy _ Hyy Hjh) as Hr.
  destruct Hi as [Hi|Hi].
  - assert (n * k + xx = i mod p_stride pl); [|lia].
    apply (Nat.mod_unique i (p_stride pl) (n * j + yy)); [lia|]. rewrite <- E. lia.
  - nia.
Qed.
End ConfinementPlane.

(** ** Blocks are processed independently *)

Section Locality.
Context {A : Arith}.
Local Open Scope nat_scope.

Lemma block_in_ext n stride src src' off x :
  (forall yy xx, yy < n -> xx < n ->
     src !!! (off + stride * yy + x + xx) = src' !!! (off + stride * yy + x + xx)) ->
  block_in n stride src off x = block_in n stride src' off x.
Proof.
  intros H. apply list_eq. intros i. unfold block_in.
  destruct (decide (i < n * n)) as [Hi|Hi].
  - destruct (cell_of_index n i Hi) as (yy & xx & Hyy & Hxx & ->).
    rewrite !copy_in_lookup by (done || apply length_replicate). by rewrite H.
  - rewrite !(proj2 (lookup_ge_None _ _)); [done|..];
      rewrite copy_in_length, length_replicate; lia.
Qed.

(** X4.  A block of the output is a function of the same block of the
    input: two source planes of one geometry that agree on the [n] by [n]
    cells of the block [(j, k)] give the same cells there, whatever the rest
    of the planes, the scratch buffers and the destination planes hold. *)
Theorem block_locality (t : T) (d : DCTFilterData) (pl pl' : plane)
    (buf buf' : list flt) (dst dst' : list sample) (n bw bh j k yy xx : nat) :
  0 < n -> d_n d = Z.of_nat n ->
  (forall b, length b = n * n -> length (d_dct d b) = n * n) ->
  (forall b, length b = n * n -> length (d_idct d b) = n * n) ->
  p_width pl = n * bw -> p_height pl = n * bh -> p_width pl <= p_stride pl ->
  p_width pl' = p_width pl -> p_height pl' = p_height pl -> p_stride pl' = p_stride pl ->
  p_stride pl * p_height pl <= length dst -> p_stride pl * p_height pl <= length dst' ->
  length buf = n * n -> length buf' = n * n ->
  j < bh -> k < bw ->
  (forall yy xx, yy < n -> xx < n ->
     p_data pl !!! (p_stride pl * (n * j + yy) + n * k + xx)
     = p_data pl' !!! (p_stride pl * (n * j + yy) + n * k + xx)) ->
  yy < n -> xx < n ->
  dst_data (process_plane t d pl buf dst) !! (p_stride pl * (n * j + yy) + n * k + xx)
  = dst_data (process_plane t d pl' buf' dst') !! (p_stride pl * (n * j + yy) + n * k + xx).
Proof.
  intros Hn Hdn Hdct Hidct Hw Hh Hs Hw' Hh' Hs' Hdst Hdst' Hbuf Hbuf' Hj Hk Hsrc Hyy Hxx.
  rewrite (process_plane_write_plane t d n (p_stride pl) (p_data pl) Hn Hdct Hidct
             bw bh buf dst pl) by done.
  rewrite (process_plane_write_plane t d n (p_stride pl) (p_data pl') Hn Hdct Hidct
             bw bh buf' dst' pl') by congruence.
  rewrite !write_plane_hit by (done || lia).
  do 4 f_equal. apply block_in_ext. intros y x Hy Hx.
  specialize (Hsrc y x Hy Hx).
  replace (p_stride pl * n * j + p_stride pl * y + n * k + x)
    with (p_stride pl * (n * j + y) + n * k + x) by lia.
  done.
Qed.
End Locality.

(** ** The scratch buffers of the frame callback *)

Section Buffers.
Context {A : Arith}.
Local Open Scope nat_scope.
Variables (t : T) (d : DCTFilterData) (n : nat).
Hypothesis dct_length : forall b, length b = n * n -> length (d_dct d b) = n * n.
Hypothesis idct_length : forall b, length b = n * n -> length (d_idct d b) = n * n.

Lemma blocks_buffer_length stride src xs s :
  length (buffer s) = n * n ->
  length (buffer (foldl (fun s x => process_block t d n stride src x s) s xs)) = n * n.
Proof.
  revert s. induction xs as [|x xs IH]; intros s Hs; [done|]. simpl. apply IH.
  unfold process_block. simpl. apply idct_length. rewrite filter_length.
  apply dct_length. by rewrite copy_in_length.
Qed.

Lemma rows_buffer_length stride src w (ys : list nat) s :
  length (buffer s) = n * n ->
  length (buffer (foldl (fun s _ => process_row t d n stride w src s) s ys)) = n * n.
Proof.
  revert s. induction ys as [|y ys IH]; intros s Hs; [done|]. simpl. apply IH.
  unfold process_row. simpl. by apply blocks_buffer_length.
Qed.
End Buffers.

Section BuffersFrame.
Context {A : Arith}.
Local Open Scope nat_scope.

Lemma process_plane_buffer_length t d pl buf dst :
  let n := Z.to_nat (d_n d) in
  (forall b, length b = n * n -> length (d_dct d b) = n * n) ->
  (forall b, length b = n * n -> length (d_idct d b) = n * n) ->
  length buf = n * n ->
  length (buffer (process_plane t d pl buf dst)) = n * n.
Proof. intros n Hdct Hidct Hbuf. unfold process_plane. by apply rows_buffer_length. Qed.

Lemma process_buffer_length t src dst d buf :
  let n := Z.to_nat (d_n d) in
  (forall b, length b = n * n -> length (d_dct d b) = n * n) ->
  (forall b, length b = n * n -> length (d_idct d b) = n * n) ->
  length buf = n * n ->
  length (process t src dst d buf).2 = n * n.
Proof.
  intros n Hdct Hidct Hbuf. rewrite process_eq.
  generalize (seq 0 (match format (d_vi d) with
                     | Some f => Z.to_nat (numPlanes f)
                     | None => 0
                     end - 0)).
  intros l.
  assert (forall st : VSFrameRef * list flt,
            length st.2 = n * n -> length (foldl (process_body t src d) st l).2 = n * n)
    as Hfold; [|by apply Hfold].
  induction l as [|p l IH]; intros st Hst; [done|]. simpl. apply IH.
  unfold process_body. destruct (d_process d !!! p); [|done]. simpl.
  by apply process_plane_buffer_length.
Qed.

End BuffersFrame.

Section GetFrameMore.
Context {A : Arith}.
Variable fftwf_alloc_real : Z -> option (list flt).
Variable fresh_data : nat -> list sample.

(** What a call that succeeds does. *)
Lemma getFrame_success d tid src bufs out bufs' :
  dctfilterGetFrame fftwf_alloc_real fresh_data d tid src bufs = (Ok out, bufs') ->
  exists b0,
    (bufs !! tid = Some b0
     \/ (bufs !! tid = None /\ fftwf_alloc_real (d_n d * d_n d) = Some b0))
    /\ out = (process (sample_type d) src
                (newVideoFrame2 fresh_data (unprocessed d src) src) d b0).1
    /\ bufs' = <[tid := (process (sample_type d) src
                           (newVideoFrame2 fresh_data (unprocessed d src) src) d b0).2]> bufs.
Proof.
  unfold dctfilterGetFrame. fold (unprocessed d src). fold (sample_type d).
  destruct (bufs !! tid) as [b0|] eqn:Hb.
  - rewrite lookup_total_alt, Hb. simpl.
    destruct (process _ _ _ _ _) as [o b] eqn:Hp. intros [= <- <-].
    exists b0. rewrite Hp. simpl. auto.
  - destruct (fftwf_alloc_real _) as [b0|] eqn:Ha; [|done].
    rewrite lookup_total_insert_eq.
    destruct (process _ _ _ _ _) as [o b] eqn:Hp. intros [= <- <-].
    exists b0. rewrite Hp. simpl. rewrite insert_insert_eq. auto.
Qed.

(** X5.  With all frames ready the frame callback fails in one case only:
    the calling thread has no scratch buffer yet and the allocation of one
    returns a null pointer.  The error is then "DCTFilter: malloc failure
    (buffer)", no frame is produced and the map of buffers is left as it
    was; a thread that has its buffer never fails. *)
Theorem getFrame_failure d tid src bufs e bufs' :
  (dctfilterGetFrame fftwf_alloc_real fresh_data d tid src bufs = (Err e, bufs')
   <-> bufs !! tid = None /\ fftwf_alloc_real (d_n d * d_n d) = None
       /\ e = Thrown MallocFailure /\ bufs' = bufs)
  /\ error_message (Thrown MallocFailure) = "DCTFilter: malloc failure (buffer)"%string.
Proof.
  split; [|reflexivity].
  unfold dctfilterGetFrame.
  destruct (bufs !! tid) as [b0|] eqn:Hb.
  - destruct (process _ _ _ _ _) as [o b]. split; [done|]. by intros [? _].
  - destruct (fftwf_alloc_real _) as [b0|] eqn:Ha.
    + destruct (process _ _ _ _ _) as [o b]. split; [done|]. by intros (_ & ? & _).
    + unfold throw. split.
      * intros [= <- <-]. done.
      * intros (_ & _ & -> & ->). done.
Qed.

(** X6.  A call that returns a frame leaves the calling thread with a
    scratch buffer, leaves the buffers of all other threads as they were, and
    keeps every buffer of the map at [n * n] elements (given that the
    allocator returns arrays of the size asked for and that executing a plan
    keeps the size of the buffer). *)
Theorem getFrame_buffers d tid src bufs out bufs' :
  let n := Z.to_nat (d_n d) in
  dctfilterGetFrame fftwf_alloc_real fresh_data d tid src bufs = (Ok out, bufs') ->
  (0 <= d_n d)%Z -> sized d bufs ->
  (forall size b, fftwf_alloc_real size = Some b -> length b = Z.to_nat size) ->
  (forall b, length b = (n * n)%nat -> length (d_dct d b) = (n * n)%nat) ->
  (forall b, length b = (n * n)%nat -> length (d_idct d b) = (n * n)%nat) ->
  is_Some (bufs' !! tid)
  /\ (forall tid', tid' <> tid -> bufs' !! tid' = bufs !! tid')
  /\ sized d bufs'.
Proof.
  intros n H Hn Hsized Halloc Hdct Hidct.
  apply getFrame_success in H as (b0 & Hb0 & _ & ->).
  assert (length b0 = (n * n)%nat) as Hlen.
  { destruct Hb0 as [Hb|[_ Ha]].
    - by apply (Hsized tid).
    - apply Halloc in Ha. rewrite Ha. by apply Z_to_nat_square. }
  split; [|split].
  - rewrite lookup_insert_eq. eauto.
  - intros tid' Hne. by rewrite lookup_insert_ne.
  - intros tid' b. destruct (decide (tid' = tid)) as [->|Hne].
    + rewrite lookup_insert_eq. intros [= <-]. by apply process_buffer_length.
    + rewrite lookup_insert_ne by done. apply Hsized.
Qed.

(** X7.  The frame returned for an input frame does not depend on the
    thread that computes it, nor on whether its scratch buffer is new or was
    used before, nor on what that buffer holds. *)
Theorem getFrame_thread_independent d src tid bufs out bufs1 tid' bufs' out' bufs1' :
  dctfilterGetFrame fftwf_alloc_real fresh_data d tid src bufs = (Ok out, bufs1) ->
  dctfilterGetFrame fftwf_alloc_real fresh_data d tid' src bufs' = (Ok out', bufs1') ->
  (0 <= d_n d)%Z -> sized d bufs -> sized d bufs' ->
  (forall size b, fftwf_alloc_real size = Some b -> length b = Z.to_nat size) ->
  out = out'.
Proof.
  intros H H' Hn Hsized Hsized' Halloc.
  apply getFrame_success in H as (b0 & Hb0 & -> & _).
  apply getFrame_success in H' as (b0' & Hb0' & -> & _).
  apply process_scratch.
  - destruct Hb0 as [Hb|[_ Ha]].
    + by apply (Hsized tid).
    + apply Halloc in Ha. rewrite Ha. by apply Z_to_nat_square.
  - destruct Hb0' as [Hb|[_ Ha]].
    + by apply (Hsized' tid').
    + apply Halloc in Ha. rewrite Ha. by apply Z_to_nat_square.
Qed.



End GetFrameMore.

(** ** More on [dctfilterCreate] *)

Section CreateMore.
Context {A : Arith}.
Variable fftwf_execute_r2r : Z -> fftw_r2r_kind -> list flt -> list flt.
Variable fftwf_alloc_real : Z -> option (list flt).
Variable invoke_error : node -> option string.

Local Abbreviation create :=
  (dctfilterCreate fftwf_execute_r2r fftwf_alloc_real invoke_error).

Lemma int_of_int64_periodic (v k : Z) : int_of_int64 (v + k * 2 ^ 32) = int_of_int64 v.
Proof.
  unfold int_of_int64. f_equal.
  replace (v + k * 2 ^ 32 + 2 ^ 31) with (v + 2 ^ 31 + k * 2 ^ 32) by lia.
  apply Z_mod_plus_full.
Qed.

(** X15.  The 64 bit value of the argument [n] is assigned to an [int]:
    only its low 32 bits count, so two values of [n] that differ by a
    multiple of 2^32 give the same result. *)
Theorem block_size_wraps (args : VSMap) (v k : Z) :
  create (with_n args (Some (v + k * 2 ^ 32))) = create (with_n args (Some v)).
Proof. unfold dctfilterCreate, with_n. simpl. by rewrite int_of_int64_periodic. Qed.

Lemma pad_checked_None (dim n : Z) : pad_checked dim n = None <-> n = 0 /\ dim <> 0.
Proof.
  unfold pad_checked. destruct (Z.land dim (2 * n - 1) =? 0) eqn:Hl.
  - split; [done|]. intros [-> Hd]. apply Z.eqb_eq in Hl. simpl in Hl.
    change (Z.land dim (-1) = 0) in Hl. rewrite Z.land_m1_r in Hl. done.
  - destruct (2 * n =? 0) eqn:Hn.
    + apply Z.eqb_eq in Hn. assert (n = 0) as -> by lia. split; [|done]. intros _.
      split; [done|]. intros ->. by rewrite Z.land_0_l in Hl.
    + apply Z.eqb_neq in Hn. split; [done|]. intros [-> _]. done.
Qed.


Lemma pad_undefined_true (args : VSMap) :
  pad_undefined args = true
  <-> block_size args = 0
      /\ (width (getVideoInfo (in_clip args)) <> 0
          \/ height (getVideoInfo (in_clip args)) <> 0).
Proof.
  unfold pad_undefined.
  rewrite andb_true_iff, orb_true_iff, !negb_true_iff, !bool_decide_eq_false.
  rewrite <- !eq_None_not_Some, !pad_checked_None. split.
  - intros [_ [[? ?]|[? ?]]]; auto.
  - intros [Hn Hd]. rewrite Hn. split; [done|]. destruct Hd; auto.
Qed.


(** X14.  A filter that was constructed without a remainder by zero has
    the block size asked for, and it is a power of two, at least 1. *)
Theorem created_block_size (args : VSMap) (nd : node) (d : DCTFilterData) :
  create args = Ok nd -> filter_data nd = Some d -> pad_undefined args = false ->
  d_n d = block_size args /\ exists k, 0 <= k /\ d_n d = 2 ^ k.
Proof.
  intros Hc Hd Hu.
  destruct (create_ok _ _ _ _ _ Hc) as (f & d0 & node1 & Hn & Hf & Hfmt & _ & _ & _ & _
    & _ & Hdn & _ & _ & _ & _ & Hfd & _).
  rewrite Hfd in Hd. injection Hd as ->. split; [done|]. rewrite Hdn.
  pose proof (proj1 (check_n_accepts _) Hn) as [H0|Hk]; [|done].
  exfalso. apply format_supported_dims in Hfmt as [Hw Hh].
  assert (pad_undefined args = true); [|congruence].
  apply pad_undefined_true. split; [done|]. lia.
Qed.

Lemma format_supported_iff (vi : VSVideoInfo) : format_supported vi = true <-> supported vi.
Proof.
  unfold format_supported, supported, isConstantFormat.
  destruct (format vi) as [f|] eqn:Hf.
  - rewrite !andb_true_iff, negb_true_iff, !Z.ltb_lt, bool_decide_eq_true. split.
    + intros [[[Hh Hw] _] Hs]. split; [done|]. split; [done|]. exists f. split; [done|].
      destruct (sampleType f).
      * apply Z.ltb_ge in Hs. done.
      * apply negb_false_iff, Z.eqb_eq in Hs. done.
    + intros (Hw & Hh & f' & [= <-] & Hs). split; [by eauto|].
      destruct (sampleType f).
      * by apply Z.ltb_ge.
      * by apply negb_false_iff, Z.eqb_eq.
  - split; [done|]. by intros (_ & _ & f & ? & _).
Qed.

Lemma select_planes_error np l proc e :
  select_planes np l proc = Err e -> e = Thrown PlaneRange \/ e = Thrown PlaneTwice.
Proof.
  revert proc. induction l as [|p l IH]; intros proc; simpl; [done|].
  destruct (_ || _); [intros [= <-]; by left|].
  destruct (proc !!! _); [intros [= <-]; by right|]. apply IH.
Qed.

Lemma build_qps_error n f q e : build_qps n f q = Err e -> e = Thrown NumQps.
Proof.
  unfold build_qps. destruct (0 <? _); [|done].
  destruct (_ && _); [|done]. by intros [= <-].
Qed.

(** X12.  For a block size other than 0 the construction fails with "only
    constant format 8-16 bit integer and 32 bit float input supported"
    exactly when the block size is a power of two (so that the test of [n]
    passes) and the clip is not of a constant format with positive
    dimensions and integer samples of at most 16 bits or float samples of 32
    bits. *)
Theorem unsupported_format_iff (args : VSMap) :
  block_size args <> 0 ->
  create args = Err (Thrown BadFormat)
  <-> (exists k, 0 <= k /\ block_size args = 2 ^ k)
      /\ ~ supported (getVideoInfo (in_clip args)).
Proof.
  intros Hn0. rewrite <- format_supported_iff.
  unfold dctfilterCreate, block_size, throw, bind, invoke in *. cbv zeta.
  set (n := match in_n args with Some v => int_of_int64 v | None => 8 end) in *.
  set (vi0 := getVideoInfo (in_clip args)) in *.
  pose proof (check_n_accepts n) as Hcheck.
  destruct ((n <? 0) || negb (Z.land n (n - 1) =? 0)) eqn:Hn.
  { split; [done|]. intros [Hk _]. destruct Hcheck as [_ Hcheck].
    by specialize (Hcheck (or_intror Hk)). }
  destruct Hcheck as [Hcheck _]. destruct (Hcheck eq_refl) as [?|Hk]; [done|].
  destruct (format vi0) as [f|] eqn:Hf.
  2:{ split; [|done]. intros _. split; [done|]. unfold format_supported. by rewrite Hf. }
  destruct (format_supported vi0) eqn:Hfmt; simpl.
  2:{ split; [|done]. intros _. split; [done|]. done. }
  split; [|by intros [_ ?]]. intros H. exfalso.
  destruct (select_planes _ _ _) as [proc|e] eqn:Hsel.
  2:{ apply select_planes_error in Hsel as [-> | ->]; done. }
  destruct (_ && _); [done|]. destruct (existsb _ _); [done|].
  destruct (negb (pad (width vi0) n =? 0) || negb (pad (height vi0) n =? 0)).
  - destruct (invoke_error (Resize_Point _ _ _ _ _)); [done|].
    destruct (build_qps _ _ _) as [q|e] eqn:Hq.
    2:{ apply build_qps_error in Hq as ->. done. }
    destruct (negb (bool_decide _)); [done|].
    destruct (invoke_error (Crop _ _ _)); done.
  - destruct (build_qps _ _ _) as [q|e] eqn:Hq.
    2:{ apply build_qps_error in Hq as ->. done. }
    destruct (negb (bool_decide _)); done.
Qed.

(** X20.  The error of an invoked host function is passed on as it is,
    without the prefix of the filter, and it is the only error the
    construction does not word itself: it can only come from the resize in
    front of the filter or from the crop behind it, so a construction on a
    clip whose width and height need no padding never fails with a host
    error. *)
Theorem host_error (args : VSMap) (msg : string) :
  create args = Err (HostError msg) ->
  let n := block_size args in
  let vi0 := getVideoInfo (in_clip args) in
  let resize := Resize_Point (width vi0 + pad (width vi0) n) (height vi0 + pad (height vi0) n)
                  (width vi0 + pad (width vi0) n) (height vi0 + pad (height vi0) n)
                  (in_clip args) in
  padded args = true
  /\ (invoke_error resize = Some msg
      \/ exists d, invoke_error (Crop (pad (width vi0) n) (pad (height vi0) n)
                                   (DCTFilter d resize)) = Some msg)
  /\ error_message (HostError msg) = msg.
Proof.
  unfold dctfilterCreate, padded, block_size, throw, bind, invoke. cbv zeta.
  set (n := match in_n args with Some v => int_of_int64 v | None => 8 end) in *.
  set (vi0 := getVideoInfo (in_clip args)) in *.
  destruct ((n <? 0) || negb (Z.land n (n - 1) =? 0)); [done|].
  destruct (format vi0) as [f|]; [|done].
  destruct (format_supported vi0); [|done]. simpl.
  destruct (select_planes _ _ _) as [proc|e] eqn:Hsel.
  2:{ apply select_planes_error in Hsel as [-> | ->]; done. }
  destruct (_ && _); [done|]. destruct (existsb _ _); [done|].
  destruct (negb (pad (width vi0) n =? 0) || negb (pad (height vi0) n =? 0)).
  - destruct (invoke_error (Resize_Point _ _ _ _ _)) as [m|] eqn:Hres.
    { intros [= <-]. auto. }
    destruct (build_qps _ _ _) as [q|e] eqn:Hq.
    2:{ apply build_qps_error in Hq as ->. done. }
    destruct (negb (bool_decide _)); [done|].
    destruct (invoke_error (Crop _ _ _)) as [m|] eqn:Hcrop; [|done].
    intros [= <-]. split; [done|]. split; [|done]. right. eauto.
  - destruct (build_qps _ _ _) as [q|e] eqn:Hq.
    2:{ apply build_qps_error in Hq as ->. done. }
    destruct (negb (bool_decide _)); done.
Qed.





(** X9.  The frame callback runs [process<uint8_t>] for one byte per
    sample, [process<uint16_t>] for two and [process<float>] otherwise.  For
    a filter constructed over a format of the host this is an integer type
    that holds [peak = 2^bitsPerSample - 1] when the samples are integers,
    and [float] (with [peak] left at 0) when they are floats. *)
Theorem sample_type_fits (args : VSMap) (nd : node) (d : DCTFilterData) (f : VSFormat) :
  create args = Ok nd -> filter_data nd = Some d ->
  format (getVideoInfo (in_clip args)) = Some f -> host_format f ->
  match sampleType f with
  | stInteger => d_peak d = 2 ^ bitsPerSample f - 1
                 /\ is_integral (sample_type d) = true
                 /\ 0 <= d_peak d < 2 ^ sample_bits (sample_type d)
  | stFloat => d_peak d = 0 /\ sample_type d = float
  end
  /\ forall fresh_data tid src bufs out bufs',
       dctfilterGetFrame fftwf_alloc_real fresh_data d tid src bufs = (Ok out, bufs') ->
       exists buf,
         out = (process (sample_type d) src
                  (newVideoFrame2 fresh_data (unprocessed d src) src) d buf).1.
Proof.
  intros Hc Hd Hf0 [Hbits Hbytes]. split.
  2:{ intros fresh_data tid src bufs out bufs' H.
      apply getFrame_success in H as (b0 & _ & -> & _). by exists b0. }
  destruct (create_ok _ _ _ _ _ Hc) as (f' & d0 & node1 & _ & Hf & Hfmt & _ & _ & _ & _
    & _ & _ & Hpk & Hvi & _ & _ & Hfd & Hpad).
  rewrite Hfd in Hd. injection Hd as ->. rewrite Hf0 in Hf. injection Hf as <-.
  assert (format (d_vi d) = Some f) as Hfd'.
  { rewrite Hvi. destruct (padded args); destruct Hpad as [-> _]; done. }
  apply format_supported_iff in Hfmt as (_ & _ & f' & Hf' & Hs).
  rewrite Hf0 in Hf'. injection Hf' as <-.
  unfold sample_type. rewrite Hfd', Hbytes.
  destruct (sampleType f).
  - rewrite Hpk, Z.shiftl_1_l. split; [done|].
    destruct (bitsPerSample f <=? 8) eqn:H8.
    + apply Z.leb_le in H8. simpl. split; [done|].
      pose proof (Z.pow_le_mono_r 2 (bitsPerSample f) 8 ltac:(lia) H8).
      pose proof (Z.pow_pos_nonneg 2 (bitsPerSample f) ltac:(lia) ltac:(lia)). lia.
    + destruct (bitsPerSample f <=? 16) eqn:H16; [|apply Z.leb_gt in H16; lia].
      simpl. split; [done|].
      pose proof (Z.pow_le_mono_r 2 (bitsPerSample f) 16 ltac:(lia) Hs).
      pose proof (Z.pow_pos_nonneg 2 (bitsPerSample f) ltac:(lia) ltac:(lia)). lia.
  - rewrite Hs. done.
Qed.
End CreateMore.

(** ** More on binary32 *)

Lemma all_from_spec (check : Z -> bool) (fuel : nat) (x0 x : Z) :
  all_from check fuel x0 = true -> x0 <= x < x0 + Z.of_nat fuel -> check x = true.
Proof.
  revert x0. induction fuel as [|fuel IH]; intros x0 H Hx; [lia|].
  simpl in H. apply andb_true_iff in H as [H1 H2].
  destruct (decide (x = x0)) as [->|Hne]; [done|].
  apply (IH (x0 + 1)); [done|lia].
Qed.

Section Binary32More.
Import IEEE Binary32Vocabulary.

Lemma unit_check (m1 : positive) (e1 : Z) (v : spec_float) :
  SFltb v (S754_zero false) || SFltb (S754_finite false m1 e1) v = false
  <-> v = S754_nan
      \/ SFleb (S754_zero false) v && SFleb v (S754_finite false m1 e1) = true.
Proof.
  destruct v as [s|s| |s m e].
  - destruct s; (split; [by right|done]).
  - destruct s; split; try done; by intros [?|?].
  - split; [by left|done].
  - destruct s.
    + split; [done|]. by intros [?|?].
    + unfold SFltb, SFleb, SFcompare.
      rewrite (Z.compare_antisym e e1).
      destruct (e ?= e1) eqn:He; unfold CompOpp.
      * assert (Pos.compare_cont Eq m1 m = CompOpp (Pos.compare_cont Eq m m1)) as ->
          by (symmetry; apply (Pos.compare_cont_antisym m m1 Eq)).
        destruct (Pos.compare_cont Eq m m1); unfold CompOpp, andb, orb.
        -- split; [by right|done].
        -- split; [by right|done].
        -- split; [done|by intros [?|?]].
      * unfold andb, orb. split; [by right|done].
      * unfold andb, orb. split; [done|by intros [?|?]].
Qed.

Lemma out_of_unit_range_nan (v : spec_float) :
  out_of_unit_range (A := arith) v = false <-> v = S754_nan \/ in_unit v = true.
Proof. exact (unit_check 4503599627370496 (-52) v). Qed.

(** X16.  The loop that checks the factors lets through every value that
    is neither below 0 nor above 1 and, since both comparisons are false
    for it, every NaN; it rejects everything else. *)
Theorem factor_check (l : list spec_float) :
  existsb (out_of_unit_range (A := arith)) l = false
  <-> forall v, v ∈ l -> v = S754_nan \/ in_unit v = true.
Proof.
  induction l as [|a l IH].
  - split; [|done]. intros _ v Hv. by apply elem_of_nil in Hv.
  - cbn [existsb]. rewrite orb_false_iff, IH, out_of_unit_range_nan. split.
    + intros [Ha Hl] v [->|Hv]%elem_of_cons; auto.
    + intros H. split; [apply H; by left|]. intros v Hv. apply H. by right.
Qed.

Lemma reads_back_16 : all_from reads_back (Z.to_nat 65536) 0 = true.
Proof. vm_compute. reflexivity. Qed.

(** X17.  The conversions at the two ends of the engine are exact on the
    samples of the integer formats: a sample [x] with [0 <= x <= peak],
    converted to [float] as the copy into the scratch buffer does and written
    back as the write-back does (plus 0.5f, truncated, clamped and converted
    to [T]), is [x] again. *)
Theorem integer_round_trip (t : T) (peak x : Z) :
  is_integral t = true -> 0 <= x <= peak -> peak < 2 ^ sample_bits t ->
  store (A := arith) t peak (load (SInt x)) = SInt x.
Proof.
  intros Ht Hx Hp.
  assert (2 ^ sample_bits t <= 65536) as H16.
  { destruct t; [by apply Z.leb_le|by apply Z.leb_le|done]. }
  assert (reads_back x = true) as Hr.
  { apply (all_from_spec reads_back (Z.to_nat 65536) 0); [exact reads_back_16|].
    change (Z.of_nat (Z.to_nat 65536)) with 65536. lia. }
  apply Z.eqb_eq in Hr.
  rewrite store_integral by (done || lia).
  unfold clamp_round.
  change (f_to_int (f_add (load (A := arith) (SInt x)) f_half) = x) in Hr.
  rewrite Hr. f_equal. lia.
Qed.

(** X19.  With [qps] omitted (or empty) every quantisation step is +0, the
    test [qps[i] > 0.0f] fails for every coefficient, and the coefficient
    step of a constructed filter is the multiplication by the factor alone. *)
Theorem no_quantisation_by_default
    (fftwf_execute_r2r : Z -> fftw_r2r_kind -> list spec_float -> list spec_float)
    (fftwf_alloc_real : Z -> option (list spec_float))
    (invoke_error : node -> option string)
    (args : VSMap) (nd : node) (d : DCTFilterData) (buf : list spec_float)
    (i : nat) (v : spec_float) :
  dctfilterCreate (A := arith) fftwf_execute_r2r fftwf_alloc_real invoke_error args = Ok nd ->
  filter_data nd = Some d -> propNumElements (in_qps args) <= 0 ->
  (i < Z.to_nat (d_n d) * Z.to_nat (d_n d))%nat -> buf !! i = Some v ->
  filter d (Z.to_nat (d_n d)) buf !! i = Some (f_mul v (d_factors d !!! i)).
Proof.
  intros Hc Hd Hq Hi Hv.
  destruct (create_ok _ _ _ _ _ Hc) as (f & d0 & node1 & Hn & _ & _ & _ & _ & _ & Hqps
    & _ & Hdn & _ & _ & _ & _ & Hfd & _).
  rewrite Hfd in Hd. injection Hd as ->.
  rewrite build_qps_omitted in Hqps by done. injection Hqps as Hqps.
  assert (0 <= d_n d) as Hn0.
  { rewrite Hdn. destruct (proj1 (check_n_accepts _) Hn) as [->|(k & Hk & ->)]; [done|].
    by apply Z.pow_nonneg. }
  rewrite (filter_lookup_Some d _ buf i v Hi Hv). f_equal.
  rewrite <- Hqps, <- Hdn, Z_to_nat_square by done.
  rewrite lookup_total_replicate_2 by done. reflexivity.
Qed.

Lemma norm_eq (n : Z) :
  norm (A := arith) n
  = SFdiv prec32 emax32 (S754_finite false 8388608 (-23)) (of_int (n * n * 4)).
Proof. reflexivity. Qed.

(** X18.  For the block sizes [n = 2^k] up to 16384 the normalisation
    constant [1.f / (n * n * 4)] is the power of two [2^-(2k+2)] exactly: the
    division does not round. *)
Theorem norm_power_of_two (k : Z) :
  0 <= k <= 14 -> norm (A := arith) (2 ^ k) = S754_finite false 8388608 (-25 - 2 * k).
Proof.
  intros Hk. rewrite norm_eq.
  assert (k = 0 \/ k = 1 \/ k = 2 \/ k = 3 \/ k = 4 \/ k = 5 \/ k = 6 \/ k = 7 \/ k = 8
          \/ k = 9 \/ k = 10 \/ k = 11 \/ k = 12 \/ k = 13 \/ k = 14) as H by lia.
  repeat (destruct H as [->|H]; [vm_compute; reflexivity|]). subst k.
  vm_compute. reflexivity.
Qed.
End Binary32More.

(** ** The further properties on concrete arguments *)

Module MoreExamples.
Import IEEE Fixture MoreFixture Examples.

Lemma partial_blocks_witness :
  process_plane uint8_t (data args5) plane_c scratch blank
  = process_plane uint8_t (data args5)
      (set_size plane_c (round_up (Z.to_nat (d_n (data args5))) 3)
         (round_up (Z.to_nat (d_n (data args5))) 1))
      scratch blank.
Proof.
  pose proof (partial_blocks uint8_t (data args5) plane_c scratch blank
                ltac:(vm_compute; lia)) as (_ & H & _).
  exact H.
Defined.

Lemma scratch_independent_witness :
  dst_data (process_plane uint8_t (data args5) plane_a scratch blank)
  = dst_data (process_plane uint8_t (data args5) plane_a scratch_b blank).
Proof. apply (scratch_independent uint8_t (data args5)); vm_compute; reflexivity. Defined.

Lemma padding_untouched_witness :
  dst_data (process_plane uint8_t (data args5) plane_a scratch blank) !! 4%nat
  = blank !! 4%nat
  /\ length (dst_data (process_plane uint8_t (data args5) plane_a scratch blank))
     = length blank.
Proof.
  apply (padding_untouched uint8_t (data args5) plane_a scratch blank 4).
  - vm_compute. lia.
  - vm_compute. lia.
  - left. vm_compute. lia.
Defined.

Lemma block_locality_witness :
  dst_data (process_plane uint8_t (data args5) plane_a scratch blank) !! 7%nat
  = dst_data (process_plane uint8_t (data args5) plane_d scratch_b blank) !! 7%nat.
Proof.
  destruct (data_transforms args5 ltac:(vm_compute; reflexivity)) as [Hdct Hidct].
  apply (block_locality uint8_t (data args5) plane_a plane_d scratch scratch_b blank blank
           2 2 1 0 0 1 1).
  - lia.
  - vm_compute. reflexivity.
  - intros b Hb. by rewrite Hdct, fftw_length.
  - intros b Hb. by rewrite Hidct, fftw_length.
  - reflexivity.
  - reflexivity.
  - simpl. lia.
  - reflexivity.
  - reflexivity.
  - reflexivity.
  - simpl. lia.
  - simpl. lia.
  - reflexivity.
  - reflexivity.
  - lia.
  - lia.
  - intros yy xx Hyy Hxx.
    destruct yy as [|[|yy]]; [| |lia]; (destruct xx as [|[|xx]]; [| |lia]); reflexivity.
  - lia.
  - lia.
Defined.

Lemma alloc_sized (size : Z) (b : list spec_float) :
  alloc size = Some b -> length b = Z.to_nat size.
Proof. unfold alloc. intros [= <-]. apply length_replicate. Qed.

Lemma getFrame_buffers_witness :
  is_Some ((get_frame_a).2 !! 0%nat)
  /\ (forall tid', tid' <> 0%nat -> (get_frame_a).2 !! tid' = (∅ : buffers) !! tid')
  /\ sized (data args5) (get_frame_a).2.
Proof.
  destruct (data_transforms args5 ltac:(vm_compute; reflexivity)) as [Hdct Hidct].
  apply (getFrame_buffers (A := arith) alloc fresh (data args5) 0 frame_a ∅ frame_out
           (get_frame_a).2 frame_out_ok).
  - vm_compute. discriminate.
  - intros tid b H. by rewrite lookup_empty in H.
  - apply alloc_sized.
  - intros b Hb. by rewrite Hdct, fftw_length.
  - intros b Hb. by rewrite Hidct, fftw_length.
Defined.

Lemma getFrame_failure_witness :
  dctfilterGetFrame (A := arith) (fun _ => None) fresh (data args5) 0 frame_a ∅
  = (Err (Thrown MallocFailure), ∅).
Proof.
  apply (getFrame_failure (A := arith) (fun _ => None) fresh (data args5) 0 frame_a ∅).
  split; [apply lookup_empty|]. split; [reflexivity|]. split; reflexivity.
Defined.

Lemma frame_out_b_ok : get_frame_b = (Ok frame_out_b, (get_frame_b).2).
Proof.
  unfold frame_out_b.
  assert (is_ok (get_frame_b).1 = true) as H by (vm_compute; reflexivity).
  destruct (get_frame_b) as [[o|e] b]; done.
Qed.

Lemma getFrame_thread_independent_witness : frame_out = frame_out_b.
Proof.
  apply (getFrame_thread_independent (A := arith) alloc fresh (data args5) frame_a
           0 ∅ frame_out (get_frame_a).2 1 {[1%nat := scratch_b]} frame_out_b
           (get_frame_b).2 frame_out_ok frame_out_b_ok).
  - vm_compute. discriminate.
  - intros tid b H. by rewrite lookup_empty in H.
  - intros tid b [_ <-]%lookup_singleton_Some. vm_compute. reflexivity.
  - apply alloc_sized.
Defined.


Lemma sample_type_fits_witness :
  d_peak (data args5) = 2 ^ 8 - 1
  /\ is_integral (sample_type (data args5)) = true
  /\ 0 <= d_peak (data args5) < 2 ^ sample_bits (sample_type (data args5)).
Proof.
  pose proof (sample_type_fits (A := arith) fftw alloc no_error args5 (created args5) (data args5) yuv8
                (created_ok args5 ltac:(vm_compute; reflexivity))
                (data_ok args5 ltac:(vm_compute; reflexivity))
                ltac:(reflexivity) ltac:(split; reflexivity)) as [H _].
  exact H.
Defined.



Lemma unsupported_format_iff_witness :
  create args6 = Err (Thrown BadFormat)
  <-> (exists k, 0 <= k /\ block_size args6 = 2 ^ k)
      /\ ~ supported (getVideoInfo (in_clip args6)).
Proof.
  apply (unsupported_format_iff (A := arith) fftw alloc no_error args6).
  vm_compute. discriminate.
Defined.

(** The 32 bit integer clip is rejected. *)
Example int32_rejected : create args6 = Err (Thrown BadFormat).
Proof.
  apply (unsupported_format_iff (A := arith) fftw alloc no_error args6).
  - vm_compute. discriminate.
  - split; [exists 1; by split|].
    intros (_ & _ & f & [= <-] & H). simpl in H. lia.
Qed.

Lemma resize_error :
  dctfilterCreate (A := arith) fftw alloc resize_fails args2
  = Err (HostError "Resize error").
Proof.
  assert (host_message (dctfilterCreate (A := arith) fftw alloc resize_fails args2)
          = "Resize error"%string) as H by (vm_compute; reflexivity).
  destruct (dctfilterCreate (A := arith) fftw alloc resize_fails args2) as [nd|[t|msg]];
    try discriminate H.
  simpl in H. by rewrite H.
Qed.

Lemma host_error_witness : padded args2 = true.
Proof.
  pose proof (host_error (A := arith) fftw alloc resize_fails args2 "Resize error"
                resize_error) as [H _].
  exact H.
Defined.


Lemma block_size_wraps_witness :
  create (with_n args1 (Some (2 + 1 * 2 ^ 32))) = create (with_n args1 (Some 2)).
Proof. exact (block_size_wraps (A := arith) fftw alloc no_error args1 2 1). Defined.

Lemma factor_check_witness :
  existsb (out_of_unit_range (A := arith)) [S754_nan; d_half] = false.
Proof.
  apply factor_check. intros v Hv.
  apply elem_of_cons in Hv as [->|Hv]; [by left|].
  apply elem_of_cons in Hv as [->|Hv]; [right; vm_compute; reflexivity|].
  by apply elem_of_nil in Hv.
Defined.

Lemma created_block_size_witness :
  d_n (data args1) = block_size args1 /\ exists k, 0 <= k /\ d_n (data args1) = 2 ^ k.
Proof.
  apply (created_block_size (A := arith) fftw alloc no_error args1 (created args1) (data args1)
           (created_ok args1 ltac:(vm_compute; reflexivity))
           (data_ok args1 ltac:(vm_compute; reflexivity))).
  vm_compute. reflexivity.
Defined.

Lemma no_quantisation_by_default_witness :
  filter (data args5) (Z.to_nat (d_n (data args5))) [f_one; f_one; f_one; f_one] !! 3%nat
  = Some (f_mul f_one (d_factors (data args5) !!! 3%nat)).
Proof.
  apply (no_quantisation_by_default fftw alloc no_error args5 (created args5) (data args5)
           [@f_one arith; f_one; f_one; f_one] 3 (@f_one arith)
           (created_ok args5 ltac:(vm_compute; reflexivity))
           (data_ok args5 ltac:(vm_compute; reflexivity))).
  - vm_compute. discriminate.
  - vm_compute. lia.
  - reflexivity.
Defined.

Lemma integer_round_trip_witness :
  store (A := arith) uint8_t 255 (load (SInt 200)) = SInt 200.
Proof. apply integer_round_trip; [reflexivity | lia | reflexivity]. Defined.

Lemma norm_power_of_two_witness :
  norm (A := arith) (2 ^ 3) = S754_finite false 8388608 (-25 - 2 * 3).
Proof. apply norm_power_of_two. lia. Defined.

End MoreExamples.
